(** * Connect Four: the game engine of [src/components/ConnectFour.tsx]

    A shallow embedding of the state machine of the [ConnectFour] component
    ([checkWinner], [dropPiece], [resetGame]) and the properties of its
    specification.  JavaScript arrays are lists read through [js_get]
    (an index outside the array reads [undefined]); reading a property of
    [undefined] raises a [TypeError], which the [result] type records.

    The drop animation ([setDropAnimation], [setTimeout]) is a second piece
    of React state that the engine never reads; it is not part of
    [GameState] and is left out. *)

From stdpp Require Import base list.
From Stdlib Require Import ZArith Lia.

Local Open Scope Z_scope.

(** ** Data model *)

(** [type Player = 1 | 2] *)
Inductive Player : Set := P1 | P2.

Definition Player_eqb (a b : Player) : bool :=
  match a, b with
  | P1, P1 | P2, P2 => true
  | _, _ => false
  end.

#[global] Instance Player_eq_dec : EqDecision Player.
Proof. solve_decision. Defined.

(** [type Cell = Player | null]: [None] is [null]. *)
Abbreviation Cell := (option Player).

(** [type Board = Cell[][]] *)
Abbreviation Board := (list (list Cell)).

Definition ROWS : Z := 6.
Definition COLS : Z := 7.

(** [interface GameState]; a coordinate pair [[row, col]] is a pair of
    integers. *)
Record GameState : Set := mkGameState {
  board : Board;
  currentPlayer : Player;
  winner : option Player;
  winningCells : list (Z * Z);
  gameOver : bool
}.

(** ** JavaScript values and failures *)

Inductive result (A : Type) : Type :=
| Ok (a : A)
| TypeError.
Arguments Ok {A} a.
Arguments TypeError {A}.

Definition bind {A B : Type} (m : result A) (k : A -> result B) : result B :=
  match m with
  | Ok a => k a
  | TypeError => TypeError
  end.

Notation "'let*' x ':=' m 'in' k" := (bind m (fun x => k))
  (at level 10, x name, m at level 100, k at level 200).

(** [arr[i]] for an integer [i]: [None] is [undefined]. *)
Definition js_get {A : Type} (arr : list A) (i : Z) : option A :=
  if 0 <=? i then arr !! Z.to_nat i else None.

(** [board[row][col]]: fails when [board[row]] is [undefined]. *)
Definition read_cell (b : Board) (row col : Z) : result (option Cell) :=
  match js_get b row with
  | None => TypeError
  | Some r => Ok (js_get r col)
  end.

(** [v === player] *)
Definition strict_eq_player (v : option Cell) (player : Player) : bool :=
  match v with
  | Some (Some q) => Player_eqb q player
  | _ => false
  end.

(** [v === null] *)
Definition strict_eq_null (v : option Cell) : bool :=
  match v with
  | Some None => true
  | _ => false
  end.

(** [cell !== null] on a cell of the board *)
Definition not_null (c : Cell) : bool :=
  match c with
  | Some _ => true
  | None => false
  end.

(** ** Initial state and [resetGame] *)

(** [Array(ROWS).fill(null).map(() => Array(COLS).fill(null))] *)
Definition emptyBoard : Board :=
  replicate (Z.to_nat ROWS) (replicate (Z.to_nat COLS) None).

Definition initialState : GameState :=
  {| board := emptyBoard;
     currentPlayer := P1;
     winner := None;
     winningCells := [];
     gameOver := false |}.

Definition resetGame (s : GameState) : GameState :=
  {| board := emptyBoard;
     currentPlayer := P1;
     winner := None;
     winningCells := [];
     gameOver := false |}.

(** ** [checkWinner] *)

(** The [directions] table, each entry [[dx, dy]] with [dx] added to the row
    and [dy] to the column.  The source comments call the entries
    horizontal, vertical, "diagonal /" and "diagonal \" in this order. *)
Definition directions : list (Z * Z) :=
  [ (0, 1); (1, 0); (1, 1); (1, -1) ].

(** The guard of both inner loops:
    [newRow >= 0 && newRow < ROWS && newCol >= 0 && newCol < COLS
     && board[newRow][newCol] === player]. *)
Definition matches (b : Board) (player : Player) (newRow newCol : Z)
  : result bool :=
  if (0 <=? newRow) && (newRow <? ROWS) && (0 <=? newCol) && (newCol <? COLS)
  then let* v := read_cell b newRow newCol in Ok (strict_eq_player v player)
  else Ok false.

(** [for (let i = 1; i < 4; i++)] in the positive direction, [steps] the
    values of [i] still to run; [cells.push] appends, [break] leaves the loop. *)
Fixpoint positive_walk (b : Board) (row col : Z) (player : Player)
  (dx dy : Z) (steps : list Z) (cells : list (Z * Z)) : result (list (Z * Z)) :=
  match steps with
  | [] => Ok cells
  | i :: rest =>
      let newRow := row + dx * i in
      let newCol := col + dy * i in
      let* m := matches b player newRow newCol in
      if m
      then positive_walk b row col player dx dy rest
             (cells ++ [(newRow, newCol)])
      else Ok cells
  end.

(** The same loop in the negative direction; [cells.unshift] prepends. *)
Fixpoint negative_walk (b : Board) (row col : Z) (player : Player)
  (dx dy : Z) (steps : list Z) (cells : list (Z * Z)) : result (list (Z * Z)) :=
  match steps with
  | [] => Ok cells
  | i :: rest =>
      let newRow := row - dx * i in
      let newCol := col - dy * i in
      let* m := matches b player newRow newCol in
      if m
      then negative_walk b row col player dx dy rest
             ((newRow, newCol) :: cells)
      else Ok cells
  end.

(** The cells collected for one direction. *)
Definition collect (b : Board) (row col : Z) (player : Player)
  (d : Z * Z) : result (list (Z * Z)) :=
  let '(dx, dy) := d in
  let cells := [(row, col)] in
  let* cells := positive_walk b row col player dx dy [1; 2; 3] cells in
  negative_walk b row col player dx dy [1; 2; 3] cells.

(** [for (const [dx, dy] of directions)], [ds] the directions still to try. *)
Fixpoint check_directions (b : Board) (row col : Z) (player : Player)
  (ds : list (Z * Z)) : result (list (Z * Z)) :=
  match ds with
  | [] => Ok []
  | d :: rest =>
      let* cells := collect b row col player d in
      if 4 <=? Z.of_nat (length cells)
      then Ok (take 4 cells)
      else check_directions b row col player rest
  end.

Definition checkWinner (b : Board) (row col : Z) (player : Player)
  : result (list (Z * Z)) :=
  check_directions b row col player directions.

(** ** [dropPiece] *)

(** [gameState.board.map(row => [...row])] *)
Definition copyBoard (b : Board) : Board := map (fun row => row) b.

(** [newBoard[row][col] = player].  The assignment is only reached after
    [newBoard[row][col] === null], so the index is inside the array. *)
Definition place (b : Board) (row col : Z) (player : Player) : Board :=
  alter (fun r => <[Z.to_nat col := Some player]> r) (Z.to_nat row) b.

(** [newBoard.every(row => row.every(cell => cell !== null))] *)
Definition board_full (b : Board) : bool :=
  forallb (fun row => forallb not_null row) b.

(** [gameState.currentPlayer === 1 ? 2 : 1] *)
Definition other (p : Player) : Player :=
  match p with
  | P1 => P2
  | _ => P1
  end.

(** The body of the [if] inside the scan: place the piece, look for a win
    and a draw, and build the state given to [setGameState]. *)
Definition settle (s : GameState) (newBoard : Board) (row col : Z)
  : result GameState :=
  let newBoard := place newBoard row col (currentPlayer s) in
  let* cells := checkWinner newBoard row col (currentPlayer s) in
  let hasWinner := 0 <? Z.of_nat (length cells) in
  let isDraw := negb hasWinner && board_full newBoard in
  Ok {| board := newBoard;
        currentPlayer :=
          if hasWinner || isDraw then currentPlayer s
          else other (currentPlayer s);
        winner := if hasWinner then Some (currentPlayer s) else None;
        winningCells := cells;
        gameOver := hasWinner || isDraw |}.

(** [for (let row = ROWS - 1; row >= 0; row--)] with [n] rows left to look
    at, so [row = n - 1]; a loop that ends without a [return] leaves the
    state as it was. *)
Fixpoint scan (s : GameState) (newBoard : Board) (col : Z) (n : nat)
  : result GameState :=
  match n with
  | O => Ok s
  | S m =>
      let row := Z.of_nat m in
      let* v := read_cell newBoard row col in
      if strict_eq_null v
      then settle s newBoard row col
      else scan s newBoard col m
  end.

(** The state of the component after the call [dropPiece(col)]. *)
Definition dropPiece (s : GameState) (col : Z) : result GameState :=
  if gameOver s then Ok s
  else scan s (copyBoard (board s)) col (Z.to_nat ROWS).

(** [canDropInColumn]: [!gameState.gameOver && gameState.board[0][col] === null],
    the test that enables a column button. *)
Definition canDropInColumn (s : GameState) (col : Z) : result bool :=
  if negb (gameOver s)
  then let* v := read_cell (board s) 0 col in Ok (strict_eq_null v)
  else Ok false.

(** States the component can be in: the initial state, and what
    [dropPiece] and [resetGame] make of a state it can be in. *)
Inductive reachable : GameState -> Prop :=
| reach_init : reachable initialState
| reach_drop s col s' :
    reachable s -> dropPiece s col = Ok s' -> reachable s'
| reach_reset s :
    reachable s -> reachable (resetGame s).

(** ** Vocabulary of the specification *)

(** The board has [ROWS] rows of [COLS] cells each. *)
Definition board_wf (b : Board) : Prop :=
  length b = Z.to_nat ROWS /\
  Forall (fun r : list Cell => length r = Z.to_nat COLS) b.

Definition in_bounds (row col : Z) : Prop :=
  0 <= row < ROWS /\ 0 <= col < COLS.

Definition in_boundsb (row col : Z) : bool :=
  (0 <=? row) && (row <? ROWS) && (0 <=? col) && (col <? COLS).

(** What a position of the grid holds; [None] outside the grid. *)
Definition cell_at (b : Board) (row col : Z) : option Cell :=
  match js_get b row with
  | Some r => js_get r col
  | None => None
  end.

(** The position is on the board and holds a piece of [player]. *)
Definition holds (b : Board) (player : Player) (rc : Z * Z) : bool :=
  in_boundsb rc.1 rc.2 && strict_eq_player (cell_at b rc.1 rc.2) player.

(** The longest prefix of [l] whose elements all satisfy [f]. *)
Fixpoint take_while {A : Type} (f : A -> bool) (l : list A) : list A :=
  match l with
  | [] => []
  | x :: l' => if f x then x :: take_while f l' else []
  end.

(** Walking outward from the played cell, nearest cell first, up to three
    cells in each direction. *)
Definition positive_cells (b : Board) (row col : Z) (player : Player)
  (d : Z * Z) : list (Z * Z) :=
  take_while (holds b player)
    (map (fun i => (row + d.1 * i, col + d.2 * i)) [1; 2; 3]).

Definition negative_cells (b : Board) (row col : Z) (player : Player)
  (d : Z * Z) : list (Z * Z) :=
  take_while (holds b player)
    (map (fun i => (row - d.1 * i, col - d.2 * i)) [1; 2; 3]).

(** The combined run of an axis: the negative-direction cells farthest
    first, then the played cell, then the positive-direction cells. *)
Definition run (b : Board) (row col : Z) (player : Player) (d : Z * Z)
  : list (Z * Z) :=
  reverse (negative_cells b row col player d)
    ++ (row, col) :: positive_cells b row col player d.

Definition qualifies (b : Board) (row col : Z) (player : Player)
  (d : Z * Z) : bool :=
  4 <=? Z.of_nat (length (run b row col player d)).

(** Win detection as the specification words it, for a given priority order
    of the axes: the first axis with a qualifying run decides, and the first
    four cells of its run are reported. *)
Definition winning_cells_in_order (axes : list (Z * Z)) (b : Board)
  (row col : Z) (player : Player) : list (Z * Z) :=
  match List.find (qualifies b row col player) axes with
  | Some d => take 4 (run b row col player d)
  | None => []
  end.

(** Four cells in a line with unit spacing, from [start] along [d]. *)
Definition line4 (start d : Z * Z) : list (Z * Z) :=
  [ (start.1, start.2);
    (start.1 + d.1, start.2 + d.2);
    (start.1 + 2 * d.1, start.2 + 2 * d.2);
    (start.1 + 3 * d.1, start.2 + 3 * d.2) ].

(** The four axes by their shape on the board, row 0 being the top row. *)
Definition horizontal : Z * Z := (0, 1).
Definition vertical : Z * Z := (1, 0).
(** "\": one row down, one column right. *)
Definition down_right : Z * Z := (1, 1).
(** "/" read downwards: one row down, one column left. *)
Definition down_left : Z * Z := (1, -1).
(** "/" read upwards: one row up, one column right. *)
Definition up_right : Z * Z := (-1, 1).

(** A position is on the board and occupied by [player]. *)
Definition occupied_by (b : Board) (player : Player) (rc : Z * Z) : Prop :=
  in_bounds rc.1 rc.2 /\ cell_at b rc.1 rc.2 = Some (Some player).

(** The piece at [(row, col)] is one of four pieces of [player] in a line
    along one of the four axes. *)
Definition completes_four (b : Board) (row col : Z) (player : Player)
  : Prop :=
  exists start d,
    In d directions /\
    In (row, col) (line4 start d) /\
    Forall (occupied_by b player) (line4 start d).

Definition has_empty_cell (b : Board) : Prop :=
  exists row col, cell_at b row col = Some None.

(** [row] is the largest row index with an empty cell in column [col]. *)
Definition lowest_empty (b : Board) (col row : Z) : Prop :=
  cell_at b row col = Some None /\
  forall row', row < row' -> cell_at b row' col <> Some None.

(** No piece floats: below an occupied cell every cell is occupied. *)
Definition no_floating (b : Board) : Prop :=
  forall row col p row',
    cell_at b row col = Some (Some p) ->
    row < row' < ROWS ->
    exists q, cell_at b row' col = Some (Some q).

(** Playing a list of columns in turn. *)
Fixpoint play (s : GameState) (cols : list Z) : result GameState :=
  match cols with
  | [] => Ok s
  | c :: rest => let* s' := dropPiece s c in play s' rest
  end.

(** What the state records about a win: nothing, or a finished game with
    the winner's four pieces in a line. *)
Definition win_recorded (s : GameState) : Prop :=
  (winner s = None /\ winningCells s = []) \/
  (gameOver s = true /\
   exists p start d,
     winner s = Some p /\ In d directions /\
     winningCells s = line4 start d /\
     Forall (occupied_by (board s) p) (line4 start d)).

Definition invariant (s : GameState) : Prop :=
  board_wf (board s) /\ no_floating (board s) /\ win_recorded s.


(** [row] is the lowest empty row of column [col], as a test. *)
Definition lowest_emptyb (b : Board) (col row : Z) : bool :=
  strict_eq_null (cell_at b row col) &&
  forallb (fun k => negb (strict_eq_null (cell_at b (row + 1 + Z.of_nat k) col)))
    (seq 0 (Z.to_nat (ROWS - 1 - row))).

(** ** Concrete games and boards *)

(** The priority order of the axes as the specification words it:
    horizontal, vertical, "/", "\", with "/" read upwards or downwards. *)
Definition worded_order_up : list (Z * Z) :=
  [horizontal; vertical; up_right; down_right].
Definition worded_order_down : list (Z * Z) :=
  [horizontal; vertical; down_left; down_right].

(** A game whose last move, player 1 into column 3, completes a "\" line
    and a "/" line at once. *)
Definition crossGame : list Z :=
  [5; 4; 1; 6; 5; 1; 5; 6; 1; 0; 4; 6; 2; 0; 2; 5; 6; 0; 0; 5; 3].

Definition crossBoard : Board :=
  let o : Cell := None in
  let x : Cell := Some P1 in
  let y : Cell := Some P2 in
  [ [o; o; o; o; o; o; o];
    [o; o; o; o; o; y; o];
    [x; o; o; o; o; y; x];
    [y; x; o; o; o; x; y];
    [y; y; x; o; x; x; y];
    [y; x; x; x; y; x; y] ].

Definition crossFinal : GameState :=
  {| board := crossBoard;
     currentPlayer := P1;
     winner := Some P1;
     winningCells := [(2, 0); (3, 1); (4, 2); (5, 3)];
     gameOver := true |}.

(** Scenario A: four pieces of player 1 written into column 3, bottom up. *)
Definition scenarioA : Board :=
  place (place (place (place emptyBoard (ROWS - 1) 3 P1)
                  (ROWS - 2) 3 P1) (ROWS - 3) 3 P1) (ROWS - 4) 3 P1.

(** Six alternating drops fill column 0 without a win. *)
Definition fullColumnGame : list Z := [0; 0; 0; 0; 0; 0].

Definition fullColumnState : GameState :=
  let o : Cell := None in
  let x : Cell := Some P1 in
  let y : Cell := Some P2 in
  {| board :=
       [ [y; o; o; o; o; o; o];
         [x; o; o; o; o; o; o];
         [y; o; o; o; o; o; o];
         [x; o; o; o; o; o; o];
         [y; o; o; o; o; o; o];
         [x; o; o; o; o; o; o] ];
     currentPlayer := P1;
     winner := None;
     winningCells := [];
     gameOver := false |}.

(** A board no game produces: the top cell of column 0 is occupied and the
    cells below it are empty. *)
Definition floatingState : GameState :=
  {| board :=
       <[0%nat := [Some P1; None; None; None; None; None; None]]> emptyBoard;
     currentPlayer := P1;
     winner := None;
     winningCells := [];
     gameOver := false |}.

(** A game of 41 moves without a win that leaves only the top cell of
    column 6 empty, player 2 to move. *)
Definition drawGame : list Z :=
  [2; 0; 0; 0; 0; 0; 0; 1; 1; 1; 1; 1; 1; 2; 2; 2; 2; 2; 3; 3; 3; 3; 3; 3;
   6; 4; 4; 4; 4; 4; 4; 5; 5; 5; 5; 5; 5; 6; 6; 6; 6].

Definition almostDraw : GameState :=
  let o : Cell := None in
  let x : Cell := Some P1 in
  let y : Cell := Some P2 in
  {| board :=
       [ [x; x; y; y; x; x; o];
         [y; y; x; x; y; y; x];
         [x; x; y; y; x; x; y];
         [y; y; x; x; y; y; x];
         [x; x; y; y; x; x; y];
         [y; y; x; x; y; y; x] ];
     currentPlayer := P2;
     winner := None;
     winningCells := [];
     gameOver := false |}.

(** ** The rest of the component *)

(** [isWinningCell]:
    [gameState.winningCells.some(([r, c]) => r === row && c === col)]. *)
Definition isWinningCell (s : GameState) (row col : Z) : bool :=
  existsb (fun rc : Z * Z => (rc.1 =? row) && (rc.2 =? col)) (winningCells s).

(** The status line of the header:
    [gameState.winner ? "Player {winner} Wins!"
     : gameState.gameOver ? "It's a Draw!"
     : "Player {currentPlayer}'s Turn"]. *)
Inductive Banner : Set :=
| Wins (p : Player)
| Draw
| Turn (p : Player).

Definition statusBanner (s : GameState) : Banner :=
  match winner s with
  | Some p => Wins p
  | None => if gameOver s then Draw else Turn (currentPlayer s)
  end.

(** [player] has four pieces in a line somewhere on the board. *)
Definition four_in_line (b : Board) (player : Player) : Prop :=
  exists start d,
    In d directions /\ Forall (occupied_by b player) (line4 start d).

(** The number of pieces of [player] on the board. *)
Definition is_piece (player : Player) (c : Cell) : bool :=
  match c with
  | Some q => Player_eqb q player
  | None => false
  end.

Definition count_row (player : Player) (r : list Cell) : nat :=
  length (List.filter (is_piece player) r).

Definition count_pieces (player : Player) (b : Board) : nat :=
  sum_list (map (count_row player) b).

(** The state [settle] hands to [setGameState] when the piece of the current
    player lands at [(row, col)], with the result of the detection in the
    words of the specification. *)
Definition landed (s : GameState) (row col : Z) : GameState :=
  let newBoard := place (board s) row col (currentPlayer s) in
  let cells :=
    winning_cells_in_order directions newBoard row col (currentPlayer s) in
  let hasWinner := 0 <? Z.of_nat (length cells) in
  let isDraw := negb hasWinner && board_full newBoard in
  {| board := newBoard;
     currentPlayer :=
       if hasWinner || isDraw then currentPlayer s
       else other (currentPlayer s);
     winner := if hasWinner then Some (currentPlayer s) else None;
     winningCells := cells;
     gameOver := hasWinner || isDraw |}.

(** [crossGame] before its last move. *)
Definition crossBefore : GameState :=
  {| board := <[5%nat := [Some P2; Some P1; Some P1; None;
                          Some P2; Some P1; Some P2]]> crossBoard;
     currentPlayer := P1;
     winner := None;
     winningCells := [];
     gameOver := false |}.

(** ** Proof tactics *)

(** Case analysis on the cells a walk looks at. *)
Ltac case_holds :=
  repeat match goal with
    | |- context [if holds ?b ?p ?x then _ else _] =>
        let E := fresh "Hcell" in destruct (holds b p x) eqn:E
    end.

(** Equality of two lists of coordinate pairs, entry by entry. *)
Ltac cells_eq :=
  repeat match goal with
    | |- @eq Z _ _ => lia
    | |- @eq (list _) [] [] => reflexivity
    | |- @eq (list _) (_ :: _) (_ :: _) => apply (f_equal2 cons)
    | |- @eq (_ * _)%type (_, _) (_, _) => apply (f_equal2 pair)
    end.

(** Settle the cells a walk looks at from the cells known to be occupied;
    [lem] turns an occupied cell into a successful test. *)
Ltac use_occupied lem :=
  repeat match goal with
    | |- context [holds ?b ?p (?x, ?y)] =>
        first
          [ match goal with
            | H : occupied_by b p (_, _) |- _ =>
                rewrite (lem b p _ _ x y H) by lia
            end
          | destruct (holds b p (x, y)) ]
    end.

Lemma bind_Ok {A B : Type} (a : A) (k : A -> result B) : bind (Ok a) k = k a.
Proof. reflexivity. Qed.

(** ** Reading a board of the right shape *)

Section Reading.

Context {A : Type}.
Implicit Types (l : list A) (i : Z).

Lemma js_get_Some l i x :
  js_get l i = Some x -> 0 <= i < Z.of_nat (length l).
Proof.
  unfold js_get. destruct (0 <=? i) eqn:E; [|done].
  intros H. apply lookup_lt_Some in H. lia.
Qed.

Lemma js_get_in_range l i :
  0 <= i < Z.of_nat (length l) -> is_Some (js_get l i).
Proof.
  intros Hi. unfold js_get. destruct (0 <=? i) eqn:E; [|lia].
  apply lookup_lt_is_Some. lia.
Qed.

Lemma js_get_outside l i :
  ~ 0 <= i < Z.of_nat (length l) -> js_get l i = None.
Proof.
  intros Hi. destruct (js_get l i) eqn:E; [|done].
  apply js_get_Some in E. lia.
Qed.

End Reading.

Lemma board_wf_row b row :
  board_wf b -> 0 <= row < ROWS ->
  exists r, js_get b row = Some r /\ length r = Z.to_nat COLS.
Proof.
  intros [Hlen Hrows] Hrow.
  destruct (js_get_in_range b row) as [r Hr]; [unfold ROWS in *; lia|].
  exists r. split; [done|].
  unfold js_get in Hr. destruct (0 <=? row); [|done].
  eapply Forall_lookup_1 in Hrows; eauto.
Qed.

Lemma read_cell_wf b row col :
  board_wf b -> 0 <= row < ROWS ->
  read_cell b row col = Ok (cell_at b row col).
Proof.
  intros Hwf Hrow. destruct (board_wf_row b row Hwf Hrow) as (r & Hr & _).
  unfold read_cell, cell_at. by rewrite Hr.
Qed.

Lemma cell_at_in_bounds b row col :
  board_wf b -> in_bounds row col -> is_Some (cell_at b row col).
Proof.
  intros Hwf [Hrow Hcol].
  destruct (board_wf_row b row Hwf Hrow) as (r & Hr & Hlen).
  unfold cell_at. rewrite Hr. apply js_get_in_range.
  unfold COLS in *. lia.
Qed.

Lemma cell_at_Some b row col c :
  board_wf b -> cell_at b row col = Some c -> in_bounds row col.
Proof.
  intros Hwf. unfold cell_at.
  destruct (js_get b row) as [r|] eqn:Hr; [|done].
  intros Hc. pose proof (js_get_Some _ _ _ Hr) as Hrow.
  destruct Hwf as [Hlen Hrows].
  assert (0 <= row < ROWS) as Hrow' by (unfold ROWS in *; lia).
  destruct (board_wf_row b row (conj Hlen Hrows) Hrow') as (r' & Hr' & Hl).
  rewrite Hr in Hr'. injection Hr' as <-.
  apply js_get_Some in Hc. split; [done|]. unfold COLS in *. lia.
Qed.

Lemma in_boundsb_spec row col :
  in_boundsb row col = true <-> in_bounds row col.
Proof.
  unfold in_boundsb, in_bounds. rewrite !andb_true_iff.
  rewrite !Z.leb_le, !Z.ltb_lt. lia.
Qed.

Lemma Player_eqb_eq p q : Player_eqb p q = true <-> p = q.
Proof. destruct p, q; simpl; split; intros H; done. Qed.

Lemma strict_eq_player_spec v p :
  strict_eq_player v p = true <-> v = Some (Some p).
Proof.
  destruct v as [[q|]|]; simpl; [|split; intros H; discriminate H..].
  rewrite Player_eqb_eq. split; [by intros ->|by intros [= ->]].
Qed.

Lemma strict_eq_null_spec v : strict_eq_null v = true <-> v = Some None.
Proof. destruct v as [[q|]|]; simpl; split; intros H; done. Qed.

Lemma holds_spec b p rc : holds b p rc = true <-> occupied_by b p rc.
Proof.
  unfold holds, occupied_by. rewrite andb_true_iff.
  by rewrite in_boundsb_spec, strict_eq_player_spec.
Qed.

(** ** The loops of [checkWinner] compute the runs of the specification *)

Section Walks.

Variables (b : Board) (row col : Z) (player : Player).
Hypothesis Hwf : board_wf b.

Lemma matches_wf r c : matches b player r c = Ok (holds b player (r, c)).
Proof.
  unfold matches, holds. fold (in_boundsb r c). simpl.
  destruct (in_boundsb r c) eqn:E; [|done].
  apply in_boundsb_spec in E as [Hr _].
  by rewrite read_cell_wf.
Qed.

Lemma positive_walk_wf dx dy steps cells :
  positive_walk b row col player dx dy steps cells =
  Ok (cells ++ take_while (holds b player)
                 (map (fun i => (row + dx * i, col + dy * i)) steps)).
Proof.
  revert cells. induction steps as [|i rest IH]; intros cells; simpl.
  - by rewrite app_nil_r.
  - rewrite matches_wf. simpl.
    destruct (holds b player (row + dx * i, col + dy * i)).
    + rewrite IH. by rewrite <- app_assoc.
    + by rewrite app_nil_r.
Qed.

Lemma negative_walk_wf dx dy steps cells :
  negative_walk b row col player dx dy steps cells =
  Ok (reverse (take_while (holds b player)
                 (map (fun i => (row - dx * i, col - dy * i)) steps))
        ++ cells).
Proof.
  revert cells. induction steps as [|i rest IH]; intros cells; simpl.
  - done.
  - rewrite matches_wf. simpl.
    destruct (holds b player (row - dx * i, col - dy * i)).
    + rewrite IH, reverse_cons. by rewrite <- app_assoc.
    + done.
Qed.

Lemma collect_wf d : collect b row col player d = Ok (run b row col player d).
Proof.
  destruct d as [dx dy]. unfold collect, run.
  rewrite positive_walk_wf, bind_Ok.
  by rewrite negative_walk_wf.
Qed.

Lemma check_directions_wf ds :
  check_directions b row col player ds =
  Ok (winning_cells_in_order ds b row col player).
Proof.
  unfold winning_cells_in_order.
  induction ds as [|d rest IH]; simpl; [done|].
  rewrite collect_wf. simpl. unfold qualifies at 1.
  by destruct (4 <=? Z.of_nat (length (run b row col player d))).
Qed.

End Walks.

(** ** A qualifying run is a line of four pieces through the played cell *)

Lemma take4_run_line b row col player d :
  holds b player (row, col) = true ->
  4 <= Z.of_nat (length (run b row col player d)) ->
  exists start,
    take 4 (run b row col player d) = line4 start d /\
    In (row, col) (line4 start d) /\
    Forall (occupied_by b player) (line4 start d).
Proof.
  intros Hplayed. destruct d as [dx dy].
  unfold run, negative_cells, positive_cells. cbn [map fst snd take_while].
  case_holds; cbn [reverse rev_append app length take]; intros Hlen;
    try lia;
    match goal with
    | |- exists _, (?x :: _) = _ /\ _ =>
        exists x;
        assert (forall l, l = line4 x (dx, dy) ->
                  (In (row, col) l /\ Forall (occupied_by b player) l) ->
                  l = line4 x (dx, dy) /\ In (row, col) (line4 x (dx, dy)) /\
                  Forall (occupied_by b player) (line4 x (dx, dy)))
          as Hgo by (by intros l -> [? ?]);
        apply Hgo; clear Hgo;
        [ unfold line4; cbn [fst snd]; cells_eq
        | split; [simpl; tauto|];
          repeat (apply Forall_cons; split; [by apply holds_spec|]);
          by apply Forall_nil ]
    end.
Qed.

Lemma winning_cells_sound axes b row col player :
  holds b player (row, col) = true ->
  winning_cells_in_order axes b row col player <> [] ->
  exists start d,
    In d axes /\
    winning_cells_in_order axes b row col player = line4 start d /\
    In (row, col) (line4 start d) /\
    Forall (occupied_by b player) (line4 start d).
Proof.
  intros Hplayed. unfold winning_cells_in_order.
  destruct (List.find _ axes) as [d|] eqn:Hfind; [|done].
  intros _. apply List.find_some in Hfind as [Hin Hq].
  unfold qualifies in Hq. apply Z.leb_le in Hq.
  destruct (take4_run_line b row col player d Hplayed Hq) as (start & H).
  by exists start, d.
Qed.

Lemma no_four_no_cells b row col player :
  holds b player (row, col) = true ->
  ~ completes_four b row col player ->
  winning_cells_in_order directions b row col player = [].
Proof.
  intros Hplayed Hno.
  destruct (winning_cells_in_order directions b row col player) eqn:E; [done|].
  exfalso. apply Hno.
  destruct (winning_cells_sound directions b row col player Hplayed)
    as (start & d & Hd & _ & Hin & Hocc); [by rewrite E|].
  by exists start, d.
Qed.

(** ** Placing a piece *)

Lemma copyBoard_id b : copyBoard b = b.
Proof. unfold copyBoard. apply map_id. Qed.

Lemma place_wf b row col player : board_wf b -> board_wf (place b row col player).
Proof.
  intros [Hlen Hrows]. split.
  - unfold place. by rewrite length_alter.
  - unfold place. apply Forall_alter; [done|].
    intros r Hr Hl. by rewrite length_insert.
Qed.

Lemma cell_at_place_eq b row col player :
  board_wf b -> in_bounds row col ->
  cell_at (place b row col player) row col = Some (Some player).
Proof.
  intros Hwf [Hrow Hcol].
  destruct (board_wf_row b row Hwf Hrow) as (r & Hr & Hlen).
  unfold cell_at, js_get, place in *.
  destruct (0 <=? row) eqn:E1; [|lia]. destruct (0 <=? col) eqn:E2; [|lia].
  rewrite list_lookup_alter_eq, Hr. simpl.
  apply list_lookup_insert_eq. unfold COLS in *. lia.
Qed.

Lemma cell_at_place_ne b row col player r c :
  0 <= row -> 0 <= col -> (r, c) <> (row, col) ->
  cell_at (place b row col player) r c = cell_at b r c.
Proof.
  intros Hrow Hcol Hne. unfold cell_at, js_get, place.
  destruct (0 <=? r) eqn:E1; [|done]. apply Z.leb_le in E1.
  destruct (decide (r = row)) as [->|Hr].
  - rewrite list_lookup_alter_eq.
    destruct (b !! Z.to_nat row) as [x|]; simpl; [|done].
    destruct (0 <=? c) eqn:E2; [|done]. apply Z.leb_le in E2.
    apply list_lookup_insert_ne. intros Heq. apply Hne. f_equal. lia.
  - rewrite list_lookup_alter_ne; [done|]. lia.
Qed.

(** ** The scan of [dropPiece] *)

Lemma settle_wf s b row col :
  board_wf b ->
  settle s b row col =
  Ok (let newBoard := place b row col (currentPlayer s) in
      let cells :=
        winning_cells_in_order directions newBoard row col (currentPlayer s) in
      let hasWinner := 0 <? Z.of_nat (length cells) in
      let isDraw := negb hasWinner && board_full newBoard in
      {| board := newBoard;
         currentPlayer :=
           if hasWinner || isDraw then currentPlayer s
           else other (currentPlayer s);
         winner := if hasWinner then Some (currentPlayer s) else None;
         winningCells := cells;
         gameOver := hasWinner || isDraw |}).
Proof.
  intros Hwf. unfold settle, checkWinner.
  rewrite check_directions_wf by (by apply place_wf). done.
Qed.

Lemma scan_none s b col n :
  board_wf b -> Z.of_nat n <= ROWS ->
  (forall row, 0 <= row < Z.of_nat n -> cell_at b row col <> Some None) ->
  scan s b col n = Ok s.
Proof.
  intros Hwf. induction n as [|n IH]; intros Hn Hfull; simpl; [done|].
  rewrite read_cell_wf by (done || lia). rewrite bind_Ok.
  destruct (strict_eq_null _) eqn:E.
  - apply strict_eq_null_spec in E. exfalso. eapply Hfull; [|done]. lia.
  - apply IH; [lia|]. intros row Hrow. apply Hfull. lia.
Qed.

Lemma scan_lowest s b col n row :
  board_wf b -> Z.of_nat n <= ROWS ->
  0 <= row < Z.of_nat n ->
  cell_at b row col = Some None ->
  (forall row', row < row' < Z.of_nat n -> cell_at b row' col <> Some None) ->
  scan s b col n = settle s b row col.
Proof.
  intros Hwf. induction n as [|n IH]; intros Hn Hrow Hempty Hbelow; [lia|].
  simpl. rewrite read_cell_wf by (done || lia). rewrite bind_Ok.
  destruct (strict_eq_null _) eqn:E.
  - apply strict_eq_null_spec in E.
    destruct (decide (row = Z.of_nat n)) as [->|Hne]; [done|].
    exfalso. eapply (Hbelow (Z.of_nat n)); [lia|done].
  - destruct (decide (row = Z.of_nat n)) as [->|Hne].
    + rewrite Hempty in E. done.
    + apply IH; [lia|lia|done|]. intros row' Hrow'. apply Hbelow. lia.
Qed.

Lemma column_cases b col n :
  (exists row, 0 <= row < Z.of_nat n /\ cell_at b row col = Some None /\
     forall row', row < row' < Z.of_nat n -> cell_at b row' col <> Some None)
  \/ (forall row, 0 <= row < Z.of_nat n -> cell_at b row col <> Some None).
Proof.
  induction n as [|n IH].
  - right. intros row Hrow. lia.
  - destruct (decide (cell_at b (Z.of_nat n) col = Some None)) as [He|Hne].
    + left. exists (Z.of_nat n). split; [lia|]. split; [done|].
      intros row' Hrow'. lia.
    + destruct IH as [(row & Hrow & He & Hbelow)|Hfull].
      * left. exists row. split; [lia|]. split; [done|].
        intros row' Hrow'.
        destruct (decide (row' = Z.of_nat n)) as [->|?]; [done|].
        apply Hbelow. lia.
      * right. intros row Hrow.
        destruct (decide (row = Z.of_nat n)) as [->|?]; [done|].
        apply Hfull. lia.
Qed.

Lemma lowest_empty_or_full b col :
  board_wf b ->
  (exists row, lowest_empty b col row) \/
  (forall row, cell_at b row col <> Some None).
Proof.
  intros Hwf.
  destruct (column_cases b col (Z.to_nat ROWS))
    as [(row & Hrow & He & Hbelow)|Hfull].
  - left. exists row. split; [done|]. intros row' Hrow' He'.
    pose proof (cell_at_Some b row' col _ Hwf He') as [Hr _].
    eapply Hbelow; [|done]. lia.
  - right. intros row He.
    pose proof (cell_at_Some b row col _ Hwf He) as [Hr _].
    eapply Hfull; [|done]. lia.
Qed.

Lemma lowest_empty_in_bounds b col row :
  board_wf b -> lowest_empty b col row -> in_bounds row col.
Proof. intros Hwf [He _]. by eapply cell_at_Some. Qed.

Lemma drop_lands_settle s col row :
  board_wf (board s) -> gameOver s = false ->
  lowest_empty (board s) col row ->
  dropPiece s col = settle s (board s) row col.
Proof.
  intros Hwf Hgo Hlow. unfold dropPiece. rewrite Hgo, copyBoard_id.
  pose proof (lowest_empty_in_bounds _ _ _ Hwf Hlow) as [Hrow _].
  destruct Hlow as [He Hbelow].
  apply scan_lowest; [done|lia|unfold ROWS in *; lia|done|].
  intros row' Hrow'. apply Hbelow. lia.
Qed.

Lemma dropPiece_column_full s col :
  board_wf (board s) ->
  (forall row, cell_at (board s) row col <> Some None) ->
  dropPiece s col = Ok s.
Proof.
  intros Hwf Hfull. unfold dropPiece. destruct (gameOver s); [done|].
  rewrite copyBoard_id. apply scan_none; [done|unfold ROWS; lia|].
  intros. apply Hfull.
Qed.

(** ** Every line of four through the played cell is detected *)

Lemma holds_at b player r c r' c' :
  occupied_by b player (r, c) -> r' = r -> c' = c ->
  holds b player (r', c') = true.
Proof. intros H -> ->. by apply holds_spec. Qed.

Lemma line_qualifies b row col player start d :
  In (row, col) (line4 start d) ->
  Forall (occupied_by b player) (line4 start d) ->
  qualifies b row col player d = true.
Proof.
  destruct start as [r0 c0], d as [dx dy]. unfold line4. cbn [fst snd].
  intros Hin Hocc.
  apply Forall_cons in Hocc as [H0 Hocc].
  apply Forall_cons in Hocc as [H1 Hocc].
  apply Forall_cons in Hocc as [H2 Hocc].
  apply Forall_cons in Hocc as [H3 _].
  unfold qualifies. apply Z.leb_le.
  unfold run, negative_cells, positive_cells. cbn [map fst snd take_while].
  destruct Hin as [[= <- <-]|[[= <- <-]|[[= <- <-]|[[= <- <-]|[]]]]];
    use_occupied holds_at; cbn [reverse rev_append app length]; lia.
Qed.

Lemma find_first_qualifying {A : Type} (f : A -> bool) (l : list A) (x : A) :
  In x l -> f x = true -> exists y, List.find f l = Some y /\ f y = true.
Proof.
  intros Hin Hx. destruct (List.find f l) as [y|] eqn:E.
  - exists y. split; [done|]. by apply List.find_some in E as [_ ?].
  - eapply List.find_none in E; [|done]. congruence.
Qed.

Lemma winning_cells_complete b row col player :
  completes_four b row col player ->
  winning_cells_in_order directions b row col player <> [].
Proof.
  intros (start & d & Hd & Hin & Hocc).
  pose proof (line_qualifies b row col player start d Hin Hocc) as Hq.
  destruct (find_first_qualifying _ _ _ Hd Hq) as (d' & Hfind & Hq').
  unfold winning_cells_in_order. rewrite Hfind.
  unfold qualifies in Hq'. apply Z.leb_le in Hq'.
  destruct (run b row col player d') as [|x l]; simpl in *; [lia|done].
Qed.

Lemma detection_correct b row col player :
  holds b player (row, col) = true ->
  winning_cells_in_order directions b row col player = [] <->
  ~ completes_four b row col player.
Proof.
  intros Hplayed. split.
  - intros Hnil Hfour. by apply winning_cells_complete in Hfour.
  - by apply no_four_no_cells.
Qed.

(** ** A full board *)

Lemma board_full_spec b :
  board_full b = true <-> ~ has_empty_cell b.
Proof.
  unfold board_full, has_empty_cell. rewrite forallb_forall. split.
  - intros Hfull (row & col & He). unfold cell_at, js_get in He.
    destruct (0 <=? row); [|done].
    destruct (b !! Z.to_nat row) as [r|] eqn:Hr; [|done].
    destruct (0 <=? col); [|done].
    apply list_elem_of_lookup_2, list_elem_of_In in Hr.
    specialize (Hfull r Hr). rewrite forallb_forall in Hfull.
    apply list_elem_of_lookup_2, list_elem_of_In in He.
    by specialize (Hfull None He).
  - intros Hno r Hr. rewrite forallb_forall. intros [q|] Hc; [done|].
    exfalso. apply Hno.
    apply list_elem_of_In, list_elem_of_lookup in Hr as [i Hi].
    apply list_elem_of_In, list_elem_of_lookup in Hc as [j Hj].
    exists (Z.of_nat i), (Z.of_nat j). unfold cell_at, js_get.
    destruct (0 <=? Z.of_nat i) eqn:E1; [|apply Z.leb_gt in E1; lia].
    rewrite Nat2Z.id, Hi.
    destruct (0 <=? Z.of_nat j) eqn:E2; [|apply Z.leb_gt in E2; lia].
    by rewrite Nat2Z.id.
Qed.

(** ** What a call of [dropPiece] does *)

Lemma dropPiece_cases s col s' :
  board_wf (board s) -> dropPiece s col = Ok s' ->
  s' = s \/
  (gameOver s = false /\
   exists row, lowest_empty (board s) col row /\
               settle s (board s) row col = Ok s').
Proof.
  intros Hwf Hdrop. destruct (gameOver s) eqn:Hgo.
  - left. unfold dropPiece in Hdrop. rewrite Hgo in Hdrop. congruence.
  - destruct (lowest_empty_or_full (board s) col Hwf) as [[row Hlow]|Hfull].
    + right. split; [done|]. exists row. split; [done|].
      by rewrite <- (drop_lands_settle s col row).
    + left. rewrite dropPiece_column_full in Hdrop by done. congruence.
Qed.

Lemma cell_at_emptyBoard row col c :
  cell_at emptyBoard row col = Some c -> c = None.
Proof.
  unfold cell_at, js_get, emptyBoard.
  destruct (0 <=? row); [|done].
  destruct (replicate _ _ !! Z.to_nat row) as [r|] eqn:Hr; [|done].
  apply lookup_replicate_1 in Hr as [-> _].
  destruct (0 <=? col); [|done].
  intros Hc. by apply lookup_replicate_1 in Hc as [-> _].
Qed.

Lemma emptyBoard_wf : board_wf emptyBoard.
Proof.
  split; [reflexivity|]. unfold emptyBoard.
  apply Forall_replicate. reflexivity.
Qed.

Lemma emptyBoard_no_floating : no_floating emptyBoard.
Proof. intros row col p row' Hc _. by apply cell_at_emptyBoard in Hc. Qed.

Lemma no_floating_place b row col player :
  board_wf b -> no_floating b -> lowest_empty b col row ->
  no_floating (place b row col player).
Proof.
  intros Hwf Hnf Hlow r c p r' Hc Hr'.
  pose proof (lowest_empty_in_bounds _ _ _ Hwf Hlow) as Hin.
  destruct Hin as [Hrow Hcol].
  destruct (decide ((r', c) = (row, col))) as [[= -> ->]|Hne'].
  { exists player. by apply cell_at_place_eq. }
  rewrite cell_at_place_ne by (done || lia).
  destruct (decide ((r, c) = (row, col))) as [[= -> ->]|Hne].
  - destruct (cell_at_in_bounds b r' col Hwf) as [[q|] Hq].
    { split; [lia|done]. }
    + by exists q.
    + destruct Hlow as [_ Hbelow]. exfalso. eapply Hbelow; [|done]. lia.
  - rewrite cell_at_place_ne in Hc by (done || lia). by eapply Hnf.
Qed.

Lemma settle_invariant s row col s' :
  board_wf (board s) -> no_floating (board s) ->
  lowest_empty (board s) col row ->
  settle s (board s) row col = Ok s' ->
  invariant s'.
Proof.
  intros Hwf Hnf Hlow Hset.
  pose proof (lowest_empty_in_bounds _ _ _ Hwf Hlow) as Hin.
  rewrite settle_wf in Hset by done. injection Hset as <-. cbn zeta.
  set (nb := place (board s) row col (currentPlayer s)).
  set (cells := winning_cells_in_order directions nb row col (currentPlayer s)).
  assert (holds nb (currentPlayer s) (row, col) = true) as Hplayed.
  { apply holds_spec. split; [done|]. by apply cell_at_place_eq. }
  split; [by apply place_wf|]. split; [by apply no_floating_place|].
  unfold win_recorded. cbn [board winner winningCells gameOver].
  destruct cells as [|x l] eqn:E.
  - left. done.
  - right. split; [done|].
    destruct (winning_cells_sound directions nb row col (currentPlayer s)
                Hplayed) as (start & d & Hd & Heq & _ & Hocc).
    { fold cells. by rewrite E. }
    exists (currentPlayer s), start, d. fold cells in Heq.
    rewrite E in Heq. done.
Qed.

Lemma initialState_invariant : invariant initialState.
Proof.
  split; [apply emptyBoard_wf|]. split; [apply emptyBoard_no_floating|].
  by left.
Qed.

Lemma reachable_invariant s : reachable s -> invariant s.
Proof.
  induction 1 as [|s col s' Hreach IH Hdrop|s Hreach IH].
  - apply initialState_invariant.
  - destruct IH as (Hwf & Hnf & Hwin).
    destruct (dropPiece_cases s col s' Hwf Hdrop)
      as [->|(_ & row & Hlow & Hset)]; [done|].
    by eapply settle_invariant.
  - apply initialState_invariant.
Qed.

Lemma play_reachable s cols s' :
  reachable s -> play s cols = Ok s' -> reachable s'.
Proof.
  revert s. induction cols as [|c rest IH]; intros s Hreach; simpl.
  - by intros [= <-].
  - destruct (dropPiece s c) as [s1|] eqn:Hdrop; simpl; [|done].
    apply IH. by eapply reach_drop.
Qed.

(** A column whose top cell is occupied has no empty cell, when no piece
    floats. *)
Lemma top_occupied_column_full b col p :
  board_wf b -> no_floating b ->
  cell_at b 0 col = Some (Some p) ->
  forall row, cell_at b row col <> Some None.
Proof.
  intros Hwf Hnf Htop row He.
  pose proof (cell_at_Some b row col _ Hwf He) as [Hrow _].
  destruct (decide (row = 0)) as [->|Hne]; [congruence|].
  destruct (Hnf 0 col p row Htop) as [q Hq]; [lia|]. congruence.
Qed.

Lemma lowest_emptyb_sound b col row :
  board_wf b -> lowest_emptyb b col row = true -> lowest_empty b col row.
Proof.
  intros Hwf. unfold lowest_emptyb. rewrite andb_true_iff.
  intros [He Hbelow]. apply strict_eq_null_spec in He.
  split; [done|]. intros row' Hrow' He'.
  pose proof (cell_at_Some b row' col _ Hwf He') as [Hr _].
  rewrite forallb_forall in Hbelow.
  specialize (Hbelow (Z.to_nat (row' - row - 1))).
  replace (row + 1 + Z.of_nat (Z.to_nat (row' - row - 1))) with row'
    in Hbelow by lia.
  rewrite He' in Hbelow. simpl in Hbelow.
  assert (false = true) as Habs; [|done].
  apply Hbelow. apply in_seq. lia.
Qed.

(** ** The concrete games *)

Example crossGame_plays : play initialState crossGame = Ok crossFinal.
Proof. vm_compute. reflexivity. Qed.

Example fullColumnGame_plays :
  play initialState fullColumnGame = Ok fullColumnState.
Proof. vm_compute. reflexivity. Qed.

Example drawGame_plays : play initialState drawGame = Ok almostDraw.
Proof. vm_compute. reflexivity. Qed.

Lemma crossBoard_wf : board_wf crossBoard.
Proof. split; [reflexivity|]. repeat constructor. Qed.

Lemma almostDraw_wf : board_wf (board almostDraw).
Proof. split; [reflexivity|]. repeat constructor. Qed.

(** ** The claims of the specification *)

(** C1 (as amended).  On a board of the right shape [checkWinner] returns
    the first four cells, counted from the negative-direction end, of the
    combined run (negative-direction cells in spatial order, the played
    cell, positive-direction cells) of the first axis whose run has at least
    four cells, and nothing when no axis has one; the axes are tried in the
    order horizontal, vertical, the "\" diagonal (one row down, one column
    right), the "/" diagonal (one row down, one column left). *)
Theorem checkWinner_axis_priority b row col player :
  board_wf b ->
  checkWinner b row col player =
  Ok (winning_cells_in_order [horizontal; vertical; down_right; down_left]
        b row col player).
Proof. intros Hwf. by apply check_directions_wf. Qed.

Lemma checkWinner_axis_priority_witness :
  board_wf crossBoard /\
  checkWinner crossBoard 5 3 P1 =
  Ok (winning_cells_in_order [horizontal; vertical; down_right; down_left]
        crossBoard 5 3 P1).
Proof.
  split.
  - split; [reflexivity|]. repeat constructor.
  - apply (checkWinner_axis_priority crossBoard 5 3 P1).
    split; [reflexivity|]. repeat constructor.
Defined.

(** C1, counterexample.  With the "/" diagonal tried before the "\"
    diagonal, as the claim words the order, the cells reported for the last
    move of [crossGame] would be those of the "/" line; [checkWinner]
    reports the "\" line. *)
Lemma checkWinner_slash_first_fails :
  checkWinner crossBoard 5 3 P1 <>
    Ok (winning_cells_in_order worded_order_up crossBoard 5 3 P1) /\
  checkWinner crossBoard 5 3 P1 <>
    Ok (winning_cells_in_order worded_order_down crossBoard 5 3 P1).
Proof. split; vm_compute; intros H; discriminate H. Qed.

(** The two lines of [crossBoard] through the last piece, and the one the
    code reports. *)
Example crossBoard_reports :
  checkWinner crossBoard 5 3 P1 = Ok [(2, 0); (3, 1); (4, 2); (5, 3)] /\
  run crossBoard 5 3 P1 down_right = [(2, 0); (3, 1); (4, 2); (5, 3)] /\
  run crossBoard 5 3 P1 down_left = [(2, 6); (3, 5); (4, 4); (5, 3)] /\
  run crossBoard 5 3 P1 up_right = [(5, 3); (4, 4); (3, 5); (2, 6)].
Proof. repeat split; vm_compute; reflexivity. Qed.

(** C2.  In a state that is not over, a drop into an in-range column whose
    top cell is empty puts the current player's piece at the largest row
    index with an empty cell in that column and changes no other cell. *)
Theorem dropPiece_lands_lowest_empty s col :
  board_wf (board s) ->
  gameOver s = false ->
  0 <= col < COLS ->
  cell_at (board s) 0 col = Some None ->
  exists s' row,
    dropPiece s col = Ok s' /\
    lowest_empty (board s) col row /\
    cell_at (board s') row col = Some (Some (currentPlayer s)) /\
    (forall r c, (r, c) <> (row, col) ->
                 cell_at (board s') r c = cell_at (board s) r c) /\
    board_wf (board s').
Proof.
  intros Hwf Hgo Hcol Htop.
  destruct (lowest_empty_or_full (board s) col Hwf) as [[row Hlow]|Hfull];
    [|by destruct (Hfull 0)].
  pose proof (lowest_empty_in_bounds _ _ _ Hwf Hlow) as Hin.
  rewrite (drop_lands_settle s col row Hwf Hgo Hlow), settle_wf by done.
  eexists _, row. split; [reflexivity|]. cbn [board].
  split; [done|]. split; [by apply cell_at_place_eq|].
  split; [|by apply place_wf].
  intros r c Hne. destruct Hin as [? ?]. apply cell_at_place_ne; [lia|lia|done].
Qed.

Lemma dropPiece_lands_lowest_empty_witness :
  exists s' row,
    dropPiece initialState 3 = Ok s' /\
    lowest_empty (board initialState) 3 row /\
    cell_at (board s') row 3 = Some (Some (currentPlayer initialState)) /\
    (forall r c, (r, c) <> (row, 3) ->
                 cell_at (board s') r c = cell_at (board initialState) r c) /\
    board_wf (board s').
Proof.
  apply (dropPiece_lands_lowest_empty initialState 3).
  - apply emptyBoard_wf.
  - reflexivity.
  - unfold COLS. lia.
  - reflexivity.
Defined.

(** C3.  Once the game is over, [dropPiece] leaves the whole state as it
    was, whatever the column. *)
Theorem dropPiece_gameOver_noop s col :
  gameOver s = true -> dropPiece s col = Ok s.
Proof. intros Hgo. unfold dropPiece. by rewrite Hgo. Qed.

Lemma dropPiece_gameOver_noop_witness :
  gameOver crossFinal = true /\ dropPiece crossFinal 0 = Ok crossFinal.
Proof.
  split; [reflexivity|].
  apply (dropPiece_gameOver_noop crossFinal 0). reflexivity.
Defined.

(** C4.  In a state of the game that is not over, a drop into an in-range
    column whose top cell is occupied leaves the state as it was. *)
Theorem dropPiece_full_column_noop s col :
  reachable s ->
  gameOver s = false ->
  0 <= col < COLS ->
  (exists p, cell_at (board s) 0 col = Some (Some p)) ->
  dropPiece s col = Ok s.
Proof.
  intros Hreach Hgo Hcol [p Htop].
  destruct (reachable_invariant s Hreach) as (Hwf & Hnf & _).
  apply dropPiece_column_full; [done|].
  by eapply top_occupied_column_full.
Qed.

Lemma dropPiece_full_column_noop_witness :
  reachable fullColumnState /\
  dropPiece fullColumnState 0 = Ok fullColumnState.
Proof.
  assert (reachable fullColumnState) as Hreach.
  { apply (play_reachable initialState fullColumnGame).
    - apply reach_init.
    - vm_compute. reflexivity. }
  split; [exact Hreach|].
  apply (dropPiece_full_column_noop fullColumnState 0 Hreach).
  - reflexivity.
  - unfold COLS. lia.
  - exists P2. reflexivity.
Defined.

(** The buttons agree with the scan: in a state of the game, a column that
    [canDropInColumn] refuses is left alone by [dropPiece]. *)
Lemma canDropInColumn_false_noop s col :
  reachable s -> canDropInColumn s col = Ok false -> dropPiece s col = Ok s.
Proof.
  intros Hreach Hcan.
  destruct (reachable_invariant s Hreach) as (Hwf & Hnf & _).
  unfold canDropInColumn in Hcan.
  destruct (gameOver s) eqn:Hgo; simpl in Hcan.
  { unfold dropPiece. by rewrite Hgo. }
  rewrite read_cell_wf in Hcan by (done || unfold ROWS; lia).
  rewrite bind_Ok in Hcan. injection Hcan as Hnull.
  apply dropPiece_column_full; [done|].
  destruct (cell_at (board s) 0 col) as [[p|]|] eqn:Htop; [|done|].
  - by eapply top_occupied_column_full.
  - intros row He. assert (in_bounds 0 col) as Hin.
    { apply (cell_at_Some _ _ _ _ Hwf) in He as [_ Hc]. split; [|done].
      unfold ROWS. lia. }
    apply (cell_at_in_bounds _ _ _ Hwf) in Hin as [x Hx]. congruence.
Qed.

(** The scan itself looks for any empty cell of the column, not at row 0:
    on a board with a gap below an occupied top cell, which no game
    produces, it would fill the gap. *)
Remark dropPiece_scans_whole_column :
  board_wf (board floatingState) /\
  cell_at (board floatingState) 0 0 = Some (Some P1) /\
  ~ no_floating (board floatingState) /\
  ~ reachable floatingState /\
  dropPiece floatingState 0 <> Ok floatingState.
Proof.
  split; [split; [reflexivity|repeat constructor]|].
  split; [reflexivity|].
  assert (~ no_floating (board floatingState)) as Hfloat.
  { intros Hnf. destruct (Hnf 0 0 P1 1) as [q Hq]; [reflexivity| |].
    - unfold ROWS. lia.
    - vm_compute in Hq. discriminate Hq. }
  split; [done|]. split.
  - intros Hreach. apply Hfloat. by apply reachable_invariant.
  - vm_compute. intros H. discriminate H.
Qed.

(** C5.  For a board of the right shape and an integer column outside
    [0, COLS), [dropPiece] returns without a failure and leaves the state
    as it was. *)
Theorem dropPiece_out_of_range_noop s col :
  board_wf (board s) ->
  ~ 0 <= col < COLS ->
  dropPiece s col = Ok s.
Proof.
  intros Hwf Hcol. apply dropPiece_column_full; [done|].
  intros row He. apply cell_at_Some in He as [_ ?]; done.
Qed.

Lemma dropPiece_out_of_range_noop_witness :
  dropPiece initialState 7 = Ok initialState /\
  dropPiece initialState (-1) = Ok initialState.
Proof.
  split.
  - apply (dropPiece_out_of_range_noop initialState 7).
    + apply emptyBoard_wf.
    + unfold COLS. lia.
  - apply (dropPiece_out_of_range_noop initialState (-1)).
    + apply emptyBoard_wf.
    + unfold COLS. lia.
Defined.

(** The state after a drop that lands on [row]. *)
Lemma dropPiece_result s col row :
  board_wf (board s) -> gameOver s = false ->
  lowest_empty (board s) col row ->
  let newBoard := place (board s) row col (currentPlayer s) in
  let cells :=
    winning_cells_in_order directions newBoard row col (currentPlayer s) in
  holds newBoard (currentPlayer s) (row, col) = true /\
  dropPiece s col =
  Ok {| board := newBoard;
        currentPlayer :=
          if (0 <? Z.of_nat (length cells))
             || negb (0 <? Z.of_nat (length cells)) && board_full newBoard
          then currentPlayer s else other (currentPlayer s);
        winner :=
          if 0 <? Z.of_nat (length cells) then Some (currentPlayer s)
          else None;
        winningCells := cells;
        gameOver :=
          (0 <? Z.of_nat (length cells))
          || negb (0 <? Z.of_nat (length cells)) && board_full newBoard |}.
Proof.
  intros Hwf Hgo Hlow newBoard cells.
  pose proof (lowest_empty_in_bounds _ _ _ Hwf Hlow) as Hin.
  split.
  - apply holds_spec. split; [done|]. by apply cell_at_place_eq.
  - by rewrite (drop_lands_settle s col row Hwf Hgo Hlow), settle_wf.
Qed.

(** C6.  A drop that lands, that does not complete a line of four pieces of
    the mover along any axis, and that leaves an empty cell on the board,
    yields a state that is not over, has no winner, and has the other
    player to move. *)
Theorem dropPiece_continue_toggles s col row :
  board_wf (board s) ->
  gameOver s = false ->
  lowest_empty (board s) col row ->
  ~ completes_four (place (board s) row col (currentPlayer s)) row col
      (currentPlayer s) ->
  has_empty_cell (place (board s) row col (currentPlayer s)) ->
  exists s',
    dropPiece s col = Ok s' /\
    board s' = place (board s) row col (currentPlayer s) /\
    gameOver s' = false /\
    winner s' = None /\
    currentPlayer s' =
      match currentPlayer s with P1 => P2 | P2 => P1 end.
Proof.
  intros Hwf Hgo Hlow Hno Hempty.
  destruct (dropPiece_result s col row Hwf Hgo Hlow) as [Hplayed ->].
  rewrite (no_four_no_cells _ _ _ _ Hplayed Hno).
  assert (board_full (place (board s) row col (currentPlayer s)) = false)
    as ->.
  { destruct (board_full _) eqn:E; [|done].
    by apply board_full_spec in E. }
  eexists. split; [reflexivity|]. simpl.
  by destruct (currentPlayer s).
Qed.

Lemma dropPiece_continue_toggles_witness :
  exists s',
    dropPiece initialState 3 = Ok s' /\
    board s' = place (board initialState) 5 3 (currentPlayer initialState) /\
    gameOver s' = false /\
    winner s' = None /\
    currentPlayer s' =
      match currentPlayer initialState with P1 => P2 | P2 => P1 end.
Proof.
  apply (dropPiece_continue_toggles initialState 3 5).
  - apply emptyBoard_wf.
  - reflexivity.
  - apply lowest_emptyb_sound; [apply emptyBoard_wf|].
    vm_compute. reflexivity.
  - apply detection_correct; vm_compute; reflexivity.
  - exists 0, 0. reflexivity.
Defined.

(** C7.  A drop that lands, that does not complete a line of four pieces of
    the mover, and that leaves no empty cell on the board, ends the game as
    a draw: no winner, no winning cells, and the mover still recorded as
    the current player. *)
Theorem dropPiece_draw s col row :
  board_wf (board s) ->
  gameOver s = false ->
  lowest_empty (board s) col row ->
  ~ completes_four (place (board s) row col (currentPlayer s)) row col
      (currentPlayer s) ->
  ~ has_empty_cell (place (board s) row col (currentPlayer s)) ->
  exists s',
    dropPiece s col = Ok s' /\
    board s' = place (board s) row col (currentPlayer s) /\
    gameOver s' = true /\
    winner s' = None /\
    winningCells s' = [] /\
    currentPlayer s' = currentPlayer s.
Proof.
  intros Hwf Hgo Hlow Hno Hfull.
  destruct (dropPiece_result s col row Hwf Hgo Hlow) as [Hplayed ->].
  rewrite (no_four_no_cells _ _ _ _ Hplayed Hno).
  apply board_full_spec in Hfull. rewrite Hfull.
  eexists. split; [reflexivity|]. done.
Qed.

Lemma dropPiece_draw_witness :
  reachable almostDraw /\
  exists s',
    dropPiece almostDraw 6 = Ok s' /\
    board s' = place (board almostDraw) 0 6 (currentPlayer almostDraw) /\
    gameOver s' = true /\
    winner s' = None /\
    winningCells s' = [] /\
    currentPlayer s' = currentPlayer almostDraw.
Proof.
  split.
  - apply (play_reachable initialState drawGame).
    + apply reach_init.
    + vm_compute. reflexivity.
  - apply (dropPiece_draw almostDraw 6 0).
    + apply almostDraw_wf.
    + reflexivity.
    + apply lowest_emptyb_sound; [apply almostDraw_wf|].
      vm_compute. reflexivity.
    + apply detection_correct; vm_compute; reflexivity.
    + apply board_full_spec. vm_compute. reflexivity.
Defined.

(** C8.  In every state reached from the initial state by [dropPiece] and
    [resetGame], a non-empty [winningCells] has exactly four pairs, each an
    in-bounds cell holding a piece of the winner, and the four are in a
    line with unit spacing along one of the four axes. *)
Theorem reachable_winningCells_line s :
  reachable s ->
  winningCells s <> [] ->
  length (winningCells s) = 4%nat /\
  (exists p, winner s = Some p /\
             Forall (occupied_by (board s) p) (winningCells s)) /\
  (exists start d,
     In d [horizontal; vertical; down_right; down_left] /\
     winningCells s = line4 start d).
Proof.
  intros Hreach Hne.
  destruct (reachable_invariant s Hreach) as (_ & _ & Hwin).
  destruct Hwin as [[_ Hnil]|(_ & p & start & d & Hw & Hd & Heq & Hocc)];
    [done|].
  rewrite Heq. split; [reflexivity|]. split.
  - by exists p.
  - by exists start, d.
Qed.

Lemma reachable_winningCells_line_witness :
  length (winningCells crossFinal) = 4%nat /\
  (exists p, winner crossFinal = Some p /\
             Forall (occupied_by (board crossFinal) p)
               (winningCells crossFinal)) /\
  (exists start d,
     In d [horizontal; vertical; down_right; down_left] /\
     winningCells crossFinal = line4 start d).
Proof.
  apply (reachable_winningCells_line crossFinal).
  - apply (play_reachable initialState crossGame).
    + apply reach_init.
    + vm_compute. reflexivity.
  - simpl. intros H. discriminate H.
Defined.

(** C9.  Scenario A: with four pieces of player 1 written into column 3 of
    the empty board, rows ROWS-1 up to ROWS-4, win detection at the last
    one finds no horizontal run of four, finds the vertical run, and
    reports the four cells of column 3 in rows ROWS-4 to ROWS-1. *)
Theorem scenarioA_vertical_win :
  checkWinner scenarioA (ROWS - 4) 3 P1 =
    Ok [(ROWS - 4, 3); (ROWS - 3, 3); (ROWS - 2, 3); (ROWS - 1, 3)] /\
  qualifies scenarioA (ROWS - 4) 3 P1 horizontal = false /\
  qualifies scenarioA (ROWS - 4) 3 P1 vertical = true /\
  run scenarioA (ROWS - 4) 3 P1 vertical =
    reverse [(ROWS - 1, 3); (ROWS - 2, 3); (ROWS - 3, 3); (ROWS - 4, 3)].
Proof. repeat split; vm_compute; reflexivity. Qed.

(** What a call of [dropPiece] records about a win, on any state. *)
Lemma scan_records s b col n s' :
  scan s b col n = Ok s' ->
  s' = s \/
  exists cells,
    winningCells s' = cells /\
    winner s' =
      if 0 <? Z.of_nat (length cells) then Some (currentPlayer s) else None.
Proof.
  induction n as [|n IH]; simpl.
  - intros [= <-]. by left.
  - destruct (read_cell b (Z.of_nat n) col) as [v|]; simpl; [|done].
    destruct (strict_eq_null v); [|done].
    unfold settle.
    destruct (checkWinner _ _ _ _) as [cells|]; simpl; [|done].
    intros [= <-]. right. by exists cells.
Qed.

Lemma dropPiece_keeps_equivalence s col s' :
  (winner s <> None <-> winningCells s <> []) ->
  dropPiece s col = Ok s' ->
  (winner s' <> None <-> winningCells s' <> []).
Proof.
  intros Hs. unfold dropPiece. destruct (gameOver s).
  - by intros [= <-].
  - intros Hscan. apply scan_records in Hscan as [->|(cells & Hc & Hw)];
      [done|].
    rewrite Hc, Hw. destruct cells; cbn; [by split; intros []|by split].
Qed.

(** What a call of [dropPiece] that changes the state records: the cells
    [checkWinner] returns for the piece just written, and the mover as
    winner exactly when there are such cells. *)
Lemma scan_sets_winner s b col n s' :
  scan s b col n = Ok s' ->
  s' = s \/
  exists row cells,
    checkWinner (place b row col (currentPlayer s)) row col (currentPlayer s)
      = Ok cells /\
    winningCells s' = cells /\
    winner s' =
      match cells with [] => None | _ :: _ => Some (currentPlayer s) end.
Proof.
  induction n as [|n IH]; simpl.
  - intros [= <-]. by left.
  - destruct (read_cell b (Z.of_nat n) col) as [v|]; simpl; [|done].
    destruct (strict_eq_null v); [|done].
    unfold settle.
    destruct (checkWinner _ _ _ _) as [cells|] eqn:Hcells; simpl; [|done].
    intros [= <-]. right. exists (Z.of_nat n), cells.
    split; [done|]. split; [done|]. cbn [winner]. by destruct cells.
Qed.

(** C10.  In every state reached from the initial state by [dropPiece] and
    [resetGame] there is a winner exactly when [winningCells] is non-empty;
    [resetGame] empties both, and [dropPiece] keeps the equivalence: a call
    either leaves the state as it was or records the cells [checkWinner]
    returns for the piece just written and sets the winner to the mover
    exactly when these cells are not empty, and a call that lands on a
    board of the right shape does the latter. *)
Theorem reachable_winner_iff_winningCells :
  (forall s, reachable s -> (winner s <> None <-> winningCells s <> [])) /\
  (forall s, winner (resetGame s) = None /\ winningCells (resetGame s) = []) /\
  (forall s col s',
     (winner s <> None <-> winningCells s <> []) ->
     dropPiece s col = Ok s' ->
     (winner s' <> None <-> winningCells s' <> [])) /\
  (forall s col s',
     dropPiece s col = Ok s' ->
     s' = s \/
     exists row cells,
       checkWinner (place (board s) row col (currentPlayer s)) row col
         (currentPlayer s) = Ok cells /\
       winningCells s' = cells /\
       (cells <> [] -> winner s' = Some (currentPlayer s)) /\
       (cells = [] -> winner s' = None)) /\
  (forall s col row,
     board_wf (board s) ->
     gameOver s = false ->
     lowest_empty (board s) col row ->
     exists s' cells,
       dropPiece s col = Ok s' /\
       checkWinner (place (board s) row col (currentPlayer s)) row col
         (currentPlayer s) = Ok cells /\
       winningCells s' = cells /\
       (cells <> [] -> winner s' = Some (currentPlayer s)) /\
       (cells = [] -> winner s' = None)).
Proof.
  split; [|split; [|split; [|split]]].
  - induction 1 as [|s col s' Hreach IH Hdrop|s Hreach IH]; [done| |done].
    by eapply dropPiece_keeps_equivalence.
  - done.
  - apply dropPiece_keeps_equivalence.
  - intros s col s'. unfold dropPiece. destruct (gameOver s).
    { intros [= <-]. by left. }
    rewrite copyBoard_id. intros Hscan.
    apply scan_sets_winner in Hscan as [->|(row & cells & Hc & Hw & Hwin)];
      [by left|].
    right. exists row, cells. split; [done|]. split; [done|].
    rewrite Hwin. by destruct cells.
  - intros s col row Hwf Hgo Hlow.
    destruct (dropPiece_result s col row Hwf Hgo Hlow) as [_ Hdrop].
    cbn zeta in Hdrop. rewrite Hdrop.
    eexists _, _. split; [reflexivity|].
    split; [unfold checkWinner; by rewrite check_directions_wf
              by (by apply place_wf)|].
    cbn [winningCells winner]. split; [done|].
    destruct (winning_cells_in_order _ _ _ _ _); cbn; by split.
Qed.

Lemma reachable_winner_iff_winningCells_witness :
  (winner crossFinal <> None <-> winningCells crossFinal <> []) /\
  exists s' cells,
    dropPiece crossBefore 3 = Ok s' /\
    checkWinner (place (board crossBefore) 5 3 (currentPlayer crossBefore))
      5 3 (currentPlayer crossBefore) = Ok cells /\
    winningCells s' = cells /\
    (cells <> [] -> winner s' = Some (currentPlayer crossBefore)) /\
    (cells = [] -> winner s' = None).
Proof.
  split.
  - apply (proj1 reachable_winner_iff_winningCells crossFinal).
    apply (play_reachable initialState crossGame).
    + apply reach_init.
    + vm_compute. reflexivity.
  - apply (proj2 (proj2 (proj2 (proj2 reachable_winner_iff_winningCells)))
             crossBefore 3 5).
    + split; [reflexivity|]. repeat constructor.
    + reflexivity.
    + apply lowest_emptyb_sound; [split; [reflexivity|]; repeat constructor|].
      vm_compute. reflexivity.
Defined.

(** * Further properties of the component *)

(** ** [checkWinner] on its own *)

(** The first four cells of a qualifying run, whatever the played cell
    holds: the walks test the neighbours only. *)
Lemma take4_run_shape b row col player d :
  4 <= Z.of_nat (length (run b row col player d)) ->
  exists start,
    take 4 (run b row col player d) = line4 start d /\
    In (row, col) (line4 start d) /\
    Forall (fun rc => rc = (row, col) \/ occupied_by b player rc)
      (line4 start d).
Proof.
  destruct d as [dx dy].
  unfold run, negative_cells, positive_cells. cbn [map fst snd take_while].
  case_holds; cbn [reverse rev_append app length take]; intros Hlen;
    try lia;
    match goal with
    | |- exists _, (?x :: _) = _ /\ _ =>
        exists x;
        assert (forall l, l = line4 x (dx, dy) ->
                  (In (row, col) l /\
                   Forall (fun rc => rc = (row, col) \/
                                     occupied_by b player rc) l) ->
                  l = line4 x (dx, dy) /\ In (row, col) (line4 x (dx, dy)) /\
                  Forall (fun rc => rc = (row, col) \/
                                    occupied_by b player rc)
                    (line4 x (dx, dy)))
          as Hgo by (by intros l -> [? ?]);
        apply Hgo; clear Hgo;
        [ unfold line4; cbn [fst snd]; cells_eq
        | split; [simpl; tauto|];
          repeat (apply Forall_cons; split;
                  [first [by left | right; by apply holds_spec]|]);
          by apply Forall_nil ]
    end.
Qed.

(** X1.  [checkWinner] never fails on a board of the right shape, whatever the
    seed position and whatever it holds; it returns no cell or four cells in
    a line along one of the directions, the seed position among them and
    all the others holding a piece of [player]. *)
Theorem checkWinner_result_shape b row col player :
  board_wf b ->
  exists cells,
    checkWinner b row col player = Ok cells /\
    (cells = [] \/
     length cells = 4%nat /\
     In (row, col) cells /\
     Forall (fun rc => rc = (row, col) \/ occupied_by b player rc) cells /\
     exists start d, In d directions /\ cells = line4 start d).
Proof.
  intros Hwf. unfold checkWinner. rewrite check_directions_wf by done.
  eexists. split; [reflexivity|].
  unfold winning_cells_in_order.
  destruct (List.find _ directions) as [d|] eqn:Hfind; [|by left].
  right. apply List.find_some in Hfind as [Hd Hq].
  unfold qualifies in Hq. apply Z.leb_le in Hq.
  destruct (take4_run_shape b row col player d Hq) as (start & -> & Hin & Hocc).
  split; [reflexivity|]. split; [done|]. split; [done|].
  by exists start, d.
Qed.

Lemma checkWinner_result_shape_witness :
  exists cells,
    checkWinner crossBoard 5 3 P1 = Ok cells /\
    (cells = [] \/
     length cells = 4%nat /\
     In (5, 3) cells /\
     Forall (fun rc => rc = (5, 3) \/ occupied_by crossBoard P1 rc) cells /\
     exists start d, In d directions /\ cells = line4 start d).
Proof.
  apply (checkWinner_result_shape crossBoard 5 3 P1).
  split; [reflexivity|]. repeat constructor.
Defined.

(** X2.  Seeded at a piece of [player], [checkWinner] reports cells exactly when
    that piece is one of four pieces of [player] in a line along one of the
    four axes. *)
Theorem checkWinner_detects_iff b row col player :
  board_wf b ->
  occupied_by b player (row, col) ->
  exists cells,
    checkWinner b row col player = Ok cells /\
    (cells <> [] <-> completes_four b row col player).
Proof.
  intros Hwf Hocc. apply holds_spec in Hocc.
  unfold checkWinner. rewrite check_directions_wf by done.
  eexists. split; [reflexivity|].
  pose proof (detection_correct b row col player Hocc) as Hdet.
  split.
  - intros Hne.
    destruct (winning_cells_sound directions b row col player Hocc Hne)
      as (start & d & Hd & _ & Hin & Hline).
    by exists start, d.
  - apply winning_cells_complete.
Qed.

Lemma checkWinner_detects_iff_witness :
  exists cells,
    checkWinner crossBoard 5 3 P1 = Ok cells /\
    (cells <> [] <-> completes_four crossBoard 5 3 P1).
Proof.
  apply (checkWinner_detects_iff crossBoard 5 3 P1).
  - split; [reflexivity|]. repeat constructor.
  - split; [|reflexivity]. unfold in_bounds, ROWS, COLS. simpl. lia.
Defined.

(** The content of the seed cell plays no part. *)
Lemma holds_place_ne b row col q player rc :
  0 <= row -> 0 <= col -> rc <> (row, col) ->
  holds (place b row col q) player rc = holds b player rc.
Proof.
  intros Hrow Hcol Hne. destruct rc as [r c]. unfold holds. cbn [fst snd].
  by rewrite cell_at_place_ne.
Qed.

Lemma run_place_seed b row col q player d :
  0 <= row -> 0 <= col -> In d directions ->
  run (place b row col q) row col player d = run b row col player d.
Proof.
  intros Hrow Hcol Hd.
  unfold run, negative_cells, positive_cells. cbn [map].
  assert (forall i, i = 1 \/ i = 2 \/ i = 3 ->
            (row + d.1 * i, col + d.2 * i) <> (row, col) /\
            (row - d.1 * i, col - d.2 * i) <> (row, col)) as Hoff.
  { intros i Hi. unfold directions in Hd. simpl in Hd.
    destruct Hd as [<-|[<-|[<-|[<-|[]]]]]; cbn [fst snd];
      split; intros [= ? ?]; lia. }
  cbn [take_while].
  rewrite !holds_place_ne by (done || apply Hoff; lia). done.
Qed.

(** X3.  Writing a piece of either player at the seed position leaves the result
    of [checkWinner] for that seed as it was: the function trusts its
    caller that the seed holds a piece of [player]. *)
Theorem checkWinner_ignores_seed b row col q player :
  board_wf b ->
  in_bounds row col ->
  checkWinner (place b row col q) row col player =
  checkWinner b row col player.
Proof.
  intros Hwf [Hrow Hcol]. unfold checkWinner.
  rewrite !check_directions_wf by (done || by apply place_wf).
  f_equal. unfold winning_cells_in_order.
  assert (forall ds, (forall d, In d ds -> In d directions) ->
            List.find (qualifies (place b row col q) row col player) ds =
            List.find (qualifies b row col player) ds) as Hfind.
  { induction ds as [|d ds IH]; intros Hsub; simpl; [done|].
    unfold qualifies at 1 3.
    rewrite run_place_seed by (lia || apply Hsub; by left).
    rewrite IH; [done|]. intros d' Hd'. apply Hsub. by right. }
  rewrite Hfind by done.
  destruct (List.find _ directions) as [d|] eqn:E; [|done].
  apply List.find_some in E as [Hd _].
  by rewrite run_place_seed by (lia || done).
Qed.

Lemma checkWinner_ignores_seed_witness :
  checkWinner (place crossBoard 5 3 P2) 5 3 P1 = checkWinner crossBoard 5 3 P1.
Proof.
  apply (checkWinner_ignores_seed crossBoard 5 3 P2 P1).
  - split; [reflexivity|]. repeat constructor.
  - unfold in_bounds, ROWS, COLS. lia.
Defined.

(** ** Induction over the games *)

Lemma settle_landed s row col :
  board_wf (board s) -> settle s (board s) row col = Ok (landed s row col).
Proof. intros Hwf. by rewrite settle_wf. Qed.

(** To show a property of every state of the game, show it of the initial
    state and of the state after a piece lands. *)
Lemma reachable_landed_ind (P : GameState -> Prop) :
  P initialState ->
  (forall s col row,
     reachable s -> P s -> gameOver s = false ->
     lowest_empty (board s) col row -> P (landed s row col)) ->
  forall s, reachable s -> P s.
Proof.
  intros Hinit Hland. induction 1 as [|s col s' Hreach IH Hdrop|s Hreach IH].
  - done.
  - destruct (reachable_invariant s Hreach) as (Hwf & _ & _).
    destruct (dropPiece_cases s col s' Hwf Hdrop)
      as [->|(Hgo & row & Hlow & Hset)]; [done|].
    rewrite settle_landed in Hset by done. injection Hset as <-.
    by eapply Hland.
  - done.
Qed.

Lemma has_cells_spec (cells : list (Z * Z)) :
  (0 <? Z.of_nat (length cells)) = true <-> cells <> [].
Proof. destruct cells; cbn; split; intros H; done. Qed.

Lemma landed_played s col row :
  board_wf (board s) -> lowest_empty (board s) col row ->
  occupied_by (place (board s) row col (currentPlayer s)) (currentPlayer s)
    (row, col).
Proof.
  intros Hwf Hlow.
  pose proof (lowest_empty_in_bounds _ _ _ Hwf Hlow) as Hin.
  split; [done|]. by apply cell_at_place_eq.
Qed.

Lemma occupied_by_place_ne b row col q p rc :
  0 <= row -> 0 <= col -> rc <> (row, col) ->
  occupied_by (place b row col q) p rc <-> occupied_by b p rc.
Proof.
  intros Hrow Hcol Hne. destruct rc as [r c]. unfold occupied_by.
  cbn [fst snd]. by rewrite cell_at_place_ne.
Qed.

(** ** The winner is who has four in a line *)

Lemma lines_have_winner s :
  reachable s -> forall p, four_in_line (board s) p -> winner s = Some p.
Proof.
  intros Hreach. induction Hreach using reachable_landed_ind.
  - intros p (start & d & _ & Hocc). exfalso.
    apply Forall_cons in Hocc as [[_ Hc] _].
    by apply cell_at_emptyBoard in Hc.
  - rename H into Hgo, H0 into Hlow.
    destruct (reachable_invariant s Hreach) as (Hwf & _ & Hwin).
    pose proof (lowest_empty_in_bounds _ _ _ Hwf Hlow) as [Hrow Hcol].
    pose proof (landed_played s col row Hwf Hlow) as Hplayed.
    intros p (start & d & Hd & Hocc). unfold landed in *. cbn [board] in Hocc.
    cbn [winner].
    destruct (decide ((row, col) ∈ line4 start d)) as [Hin|Hnin].
    + assert (p = currentPlayer s) as ->.
      { rewrite Forall_forall in Hocc. apply Hocc in Hin as [_ Hc].
        destruct Hplayed as [_ Hc']. cbn [fst snd] in *. congruence. }
      assert (completes_four (place (board s) row col (currentPlayer s))
                row col (currentPlayer s)) as Hfour.
      { exists start, d. split; [done|].
        split; [by apply list_elem_of_In|done]. }
      apply winning_cells_complete, has_cells_spec in Hfour.
      by rewrite Hfour.
    + exfalso. assert (four_in_line (board s) p) as Hold.
      { exists start, d. split; [done|].
        rewrite Forall_forall in Hocc |- *. intros rc Hrc.
        apply (occupied_by_place_ne (board s) row col (currentPlayer s));
          [lia|lia| |by apply Hocc].
        intros ->. done. }
      apply IHHreach in Hold.
      destruct Hwin as [[Hnone _]|[Hover _]]; congruence.
Qed.

(** X4.  In every state of the game, the recorded winner is the one player with
    four pieces in a line on the board: [winner] is [p] exactly when [p]
    has such a line, and nobody has one while [winner] is empty. *)
Theorem winner_iff_four_in_line s p :
  reachable s ->
  winner s = Some p <-> four_in_line (board s) p.
Proof.
  intros Hreach. split; [|by apply lines_have_winner].
  destruct (reachable_invariant s Hreach) as (_ & _ & Hwin).
  intros Hw.
  destruct Hwin as [[Hnone _]|(_ & p' & start & d & Hw' & Hd & _ & Hocc)];
    [congruence|].
  assert (p' = p) as -> by congruence. by exists start, d.
Qed.

Lemma winner_iff_four_in_line_witness :
  winner crossFinal = Some P1 <-> four_in_line (board crossFinal) P1.
Proof.
  apply (winner_iff_four_in_line crossFinal P1).
  apply (play_reachable initialState crossGame).
  - apply reach_init.
  - vm_compute. reflexivity.
Defined.

(** ** When the game is over *)

Lemma gameOver_spec s :
  reachable s ->
  gameOver s = true <-> winner s <> None \/ board_full (board s) = true.
Proof.
  intros Hreach. induction Hreach using reachable_landed_ind.
  - vm_compute. split; [done|]. intros [H|H]; [exfalso; by apply H|done].
  - unfold landed. cbn [gameOver winner board].
    destruct (0 <? Z.of_nat (length _)); cbn.
    + split; [|done]. intros _. by left.
    + split; [by right|]. intros [H1|H1]; [exfalso; by apply H1|done].
Qed.

(** X5.  In every state of the game, [gameOver] is set exactly when there is a
    winner or the board has no empty cell. *)
Theorem gameOver_iff_won_or_full s :
  reachable s ->
  gameOver s = true <-> winner s <> None \/ ~ has_empty_cell (board s).
Proof.
  intros Hreach. rewrite <- board_full_spec. by apply gameOver_spec.
Qed.

Lemma gameOver_iff_won_or_full_witness :
  gameOver almostDraw = true <->
  winner almostDraw <> None \/ ~ has_empty_cell (board almostDraw).
Proof.
  apply (gameOver_iff_won_or_full almostDraw).
  apply (play_reachable initialState drawGame).
  - apply reach_init.
  - vm_compute. reflexivity.
Defined.

(** ** The column buttons *)

Lemma forallb_false_lookup {A : Type} (f : A -> bool) (l : list A) :
  forallb f l = false -> exists i x, l !! i = Some x /\ f x = false.
Proof.
  induction l as [|y l IH]; simpl; [done|].
  destruct (f y) eqn:Hy; simpl.
  - intros Hl. destruct (IH Hl) as (i & x & Hi & Hx). by exists (S i), x.
  - intros _. by exists 0%nat, y.
Qed.

Lemma board_not_full b : board_full b = false -> has_empty_cell b.
Proof.
  unfold board_full. intros Hb.
  apply forallb_false_lookup in Hb as (i & r & Hi & Hr).
  apply forallb_false_lookup in Hr as (j & [q|] & Hj & Hc); [done|].
  exists (Z.of_nat i), (Z.of_nat j). unfold cell_at, js_get.
  destruct (0 <=? Z.of_nat i) eqn:E1; [|apply Z.leb_gt in E1; lia].
  rewrite Nat2Z.id, Hi.
  destruct (0 <=? Z.of_nat j) eqn:E2; [|apply Z.leb_gt in E2; lia].
  by rewrite Nat2Z.id.
Qed.

Lemma canDropInColumn_wf s col :
  board_wf (board s) ->
  canDropInColumn s col =
  Ok (negb (gameOver s) && strict_eq_null (cell_at (board s) 0 col)).
Proof.
  intros Hwf. unfold canDropInColumn. destruct (gameOver s); [done|].
  simpl. rewrite read_cell_wf by (done || unfold ROWS; lia). done.
Qed.

(** X6.  In every state of the game that is not over, the button of some column
    is enabled. *)
Theorem some_column_enabled s :
  reachable s ->
  gameOver s = false ->
  exists col, 0 <= col < COLS /\ canDropInColumn s col = Ok true.
Proof.
  intros Hreach Hgo.
  destruct (reachable_invariant s Hreach) as (Hwf & Hnf & _).
  assert (board_full (board s) = false) as Hfull.
  { destruct (board_full (board s)) eqn:E; [|done].
    assert (gameOver s = true) as Habs; [|congruence].
    apply gameOver_spec; [done|]. by right. }
  apply board_not_full in Hfull as (row & col & He).
  pose proof (cell_at_Some _ _ _ _ Hwf He) as [Hrow Hcol].
  exists col. split; [done|].
  rewrite canDropInColumn_wf, Hgo by done.
  destruct (cell_at_in_bounds (board s) 0 col Hwf) as [[p|] Htop].
  { split; [unfold ROWS; lia|done]. }
  - exfalso. by eapply (top_occupied_column_full _ _ _ Hwf Hnf Htop).
  - by rewrite Htop.
Qed.

Lemma some_column_enabled_witness :
  exists col, 0 <= col < COLS /\ canDropInColumn almostDraw col = Ok true.
Proof.
  apply (some_column_enabled almostDraw).
  - apply (play_reachable initialState drawGame).
    + apply reach_init.
    + vm_compute. reflexivity.
  - reflexivity.
Defined.

(** X7.  In every state of the game and for every integer column, neither
    [canDropInColumn] nor [dropPiece] fails, and they agree: a refused column
    is left alone by [dropPiece], an accepted one receives a piece of the
    current player in a cell that was empty. *)
Theorem canDropInColumn_decides_dropPiece s col :
  reachable s ->
  exists ok s',
    canDropInColumn s col = Ok ok /\
    dropPiece s col = Ok s' /\
    (ok = false -> s' = s) /\
    (ok = true ->
     exists row,
       cell_at (board s) row col = Some None /\
       cell_at (board s') row col = Some (Some (currentPlayer s))).
Proof.
  intros Hreach.
  destruct (reachable_invariant s Hreach) as (Hwf & Hnf & _).
  destruct (canDropInColumn s col) as [[|]|] eqn:Hcan.
  - rewrite canDropInColumn_wf in Hcan by done. injection Hcan as Hcan.
    apply andb_true_iff in Hcan as [Hgo Htop].
    apply negb_true_iff in Hgo. apply strict_eq_null_spec in Htop.
    destruct (lowest_empty_or_full (board s) col Hwf) as [[row Hlow]|Hfull];
      [|by destruct (Hfull 0)].
    exists true, (landed s row col). split; [done|].
    rewrite (drop_lands_settle s col row Hwf Hgo Hlow), settle_landed by done.
    split; [done|]. split; [done|]. intros _. exists row.
    split; [by destruct Hlow|].
    by destruct (landed_played s col row Hwf Hlow).
  - exists false, s. split; [done|].
    rewrite (canDropInColumn_false_noop s col Hreach Hcan).
    split; [done|]. split; done.
  - rewrite canDropInColumn_wf in Hcan by done. done.
Qed.

Lemma canDropInColumn_decides_dropPiece_witness :
  exists ok s',
    canDropInColumn fullColumnState 0 = Ok ok /\
    dropPiece fullColumnState 0 = Ok s' /\
    (ok = false -> s' = fullColumnState) /\
    (ok = true ->
     exists row,
       cell_at (board fullColumnState) row 0 = Some None /\
       cell_at (board s') row 0 =
         Some (Some (currentPlayer fullColumnState))).
Proof.
  apply (canDropInColumn_decides_dropPiece fullColumnState 0).
  apply (play_reachable initialState fullColumnGame).
  - apply reach_init.
  - vm_compute. reflexivity.
Defined.

(** ** Pieces stack *)

(** In a state of the game, the cells above the landing row are empty. *)
Lemma above_landing_empty b col row r :
  board_wf b -> no_floating b -> lowest_empty b col row ->
  0 <= r < row -> cell_at b r col = Some None.
Proof.
  intros Hwf Hnf Hlow Hr.
  pose proof (lowest_empty_in_bounds _ _ _ Hwf Hlow) as [Hrow Hcol].
  destruct (cell_at_in_bounds b r col Hwf) as [[p|] Hc]; [|  |done].
  { split; [lia|done]. }
  destruct (Hnf r col p row Hc) as [q Hq]; [lia|].
  destruct Hlow as [He _]. congruence.
Qed.

(** X8.  In a state of the game that is not over, a piece that lands in row
    [row] of a column leaves the cell just above as the next landing place
    of that column, and leaves the column without an empty cell when it
    landed in row 0. *)
Theorem dropPiece_stacks s col row :
  reachable s ->
  gameOver s = false ->
  lowest_empty (board s) col row ->
  exists s',
    dropPiece s col = Ok s' /\
    (0 < row -> lowest_empty (board s') col (row - 1)) /\
    (row = 0 -> forall r, cell_at (board s') r col <> Some None).
Proof.
  intros Hreach Hgo Hlow.
  destruct (reachable_invariant s Hreach) as (Hwf & Hnf & _).
  pose proof (lowest_empty_in_bounds _ _ _ Hwf Hlow) as [Hrow Hcol].
  exists (landed s row col).
  rewrite (drop_lands_settle s col row Hwf Hgo Hlow), settle_landed by done.
  split; [done|]. unfold landed. cbn [board].
  assert (forall r, row <= r ->
            cell_at (place (board s) row col (currentPlayer s)) r col
            <> Some None) as Hbelow.
  { intros r Hr. destruct (decide (r = row)) as [->|Hne].
    - rewrite cell_at_place_eq by done. done.
    - rewrite cell_at_place_ne by (lia || intros [= ?]; lia).
      destruct Hlow as [_ Hb]. apply Hb. lia. }
  split.
  - intros Hpos. split.
    + rewrite cell_at_place_ne by (lia || intros [= ?]; lia).
      apply (above_landing_empty _ _ row); [done..|lia].
    + intros r Hr. apply Hbelow. lia.
  - intros -> r He.
    pose proof (place_wf (board s) 0 col (currentPlayer s) Hwf) as Hwf'.
    pose proof (cell_at_Some _ _ _ _ Hwf' He) as [Hr _].
    by apply (Hbelow r); [lia|].
Qed.

Lemma dropPiece_stacks_witness :
  exists s',
    dropPiece initialState 3 = Ok s' /\
    (0 < 5 -> lowest_empty (board s') 3 (5 - 1)) /\
    (5 = 0 -> forall r, cell_at (board s') r 3 <> Some None).
Proof.
  apply (dropPiece_stacks initialState 3 5).
  - apply reach_init.
  - reflexivity.
  - apply lowest_emptyb_sound; [apply emptyBoard_wf|].
    vm_compute. reflexivity.
Defined.

(** ** The players take turns *)

Lemma count_row_insert player q (r : list Cell) (i : nat) :
  r !! i = Some None ->
  count_row player (<[i := Some q]> r) =
  (count_row player r + if Player_eqb q player then 1 else 0)%nat.
Proof.
  unfold count_row. revert i. induction r as [|c r IH]; intros i; [done|].
  destruct i as [|i]; simpl.
  - intros [= ->]. simpl. destruct (Player_eqb q player); simpl; lia.
  - intros Hi. destruct (is_piece player c); simpl; rewrite IH by done; lia.
Qed.

Lemma count_pieces_cons player (r : list Cell) (b : Board) :
  count_pieces player (r :: b) =
  (count_row player r + count_pieces player b)%nat.
Proof. reflexivity. Qed.

Lemma count_pieces_alter player (f : list Cell -> list Cell) (b : Board)
  (i : nat) (r : list Cell) (n : nat) :
  b !! i = Some r ->
  count_row player (f r) = (count_row player r + n)%nat ->
  count_pieces player (alter f i b) = (count_pieces player b + n)%nat.
Proof.
  revert i. induction b as [|r' b IH]; intros i; [done|].
  destruct i as [|i]; intros Hi Hf; simpl in Hi.
  - injection Hi as ->. change (alter f 0%nat (r :: b)) with (f r :: b).
    rewrite !count_pieces_cons, Hf. lia.
  - change (alter f (S i) (r' :: b)) with (r' :: alter f i b).
    rewrite !count_pieces_cons, (IH i) by done. lia.
Qed.

Lemma count_pieces_place player b row col q :
  cell_at b row col = Some None ->
  count_pieces player (place b row col q) =
  (count_pieces player b + if Player_eqb q player then 1 else 0)%nat.
Proof.
  unfold cell_at, js_get, place.
  destruct (0 <=? row); [|done].
  destruct (b !! Z.to_nat row) as [r|] eqn:Hr; [|done].
  destruct (0 <=? col); [|done]. intros Hc.
  apply (count_pieces_alter _ _ _ _ r); [done|].
  by apply count_row_insert.
Qed.

Lemma turn_invariant s :
  reachable s ->
  let n1 := count_pieces P1 (board s) in
  let n2 := count_pieces P2 (board s) in
  if gameOver s
  then currentPlayer s = P1 /\ n1 = S n2 \/ currentPlayer s = P2 /\ n1 = n2
  else currentPlayer s = P1 /\ n1 = n2 \/ currentPlayer s = P2 /\ n1 = S n2.
Proof.
  intros Hreach. induction Hreach using reachable_landed_ind.
  - left. split; reflexivity.
  - rename H into Hgo, H0 into Hlow. rewrite Hgo in IHHreach.
    cbn zeta in *. unfold landed. cbn [board gameOver currentPlayer].
    destruct Hlow as [He _].
    rewrite !(count_pieces_place _ _ _ _ _ He).
    destruct (_ || _);
      destruct IHHreach as [[-> ->]|[-> ->]]; simpl; [left|right|right|left];
      (split; [done|lia]).
Qed.

(** X9.  In every state of the game, player 1 has as many pieces on the board as
    player 2 or one more; while the game is not over it is player 1's turn
    exactly when they have equally many. *)
Theorem turns_alternate s :
  reachable s ->
  (count_pieces P1 (board s) = count_pieces P2 (board s) \/
   count_pieces P1 (board s) = S (count_pieces P2 (board s))) /\
  (gameOver s = false ->
   (currentPlayer s = P1 <->
    count_pieces P1 (board s) = count_pieces P2 (board s))).
Proof.
  intros Hreach. pose proof (turn_invariant s Hreach) as Hturn.
  cbn zeta in Hturn. destruct (gameOver s).
  - split; [|done]. destruct Hturn as [[_ ?]|[_ ?]]; [by right|by left].
  - split; [destruct Hturn as [[_ ?]|[_ ?]]; [by left|by right]|].
    intros _. destruct Hturn as [[Hp Hn]|[Hp Hn]]; rewrite Hp, Hn.
    + done.
    + split; [done|lia].
Qed.

Lemma turns_alternate_witness :
  (count_pieces P1 (board almostDraw) = count_pieces P2 (board almostDraw) \/
   count_pieces P1 (board almostDraw) =
     S (count_pieces P2 (board almostDraw))) /\
  (gameOver almostDraw = false ->
   (currentPlayer almostDraw = P1 <->
    count_pieces P1 (board almostDraw) = count_pieces P2 (board almostDraw))).
Proof.
  apply (turns_alternate almostDraw).
  apply (play_reachable initialState drawGame).
  - apply reach_init.
  - vm_compute. reflexivity.
Defined.

(** ** What the view shows *)

Lemma isWinningCell_spec s row col :
  isWinningCell s row col = true <-> In (row, col) (winningCells s).
Proof.
  unfold isWinningCell. rewrite existsb_exists. split.
  - intros ([r c] & Hin & Heq). cbn [fst snd] in Heq.
    apply andb_true_iff in Heq as [Hr Hc].
    apply Z.eqb_eq in Hr, Hc. by subst.
  - intros Hin. exists (row, col). split; [done|]. cbn [fst snd].
    by rewrite !Z.eqb_refl.
Qed.

Lemma line4_NoDup start d : In d directions -> List.NoDup (line4 start d).
Proof.
  intros Hd. unfold directions in Hd. simpl in Hd. unfold line4.
  destruct Hd as [<-|[<-|[<-|[<-|[]]]]]; cbn [fst snd];
    repeat (constructor;
            [simpl; intros H;
             repeat (destruct H as [H|H];
                     [pose proof (f_equal fst H) as E1;
                      pose proof (f_equal snd H) as E2;
                      cbn [fst snd] in E1, E2; lia|]);
             done|]);
    constructor.
Qed.

(** X10.  In every state of the game, [isWinningCell] marks no position while
    there is no winner, and otherwise marks exactly four different
    positions, each holding a piece of the winner. *)
Theorem isWinningCell_marks_winning_line s :
  reachable s ->
  (winner s = None -> forall row col, isWinningCell s row col = false) /\
  (forall p, winner s = Some p ->
     exists l,
       length l = 4%nat /\ List.NoDup l /\
       Forall (occupied_by (board s) p) l /\
       forall row col, isWinningCell s row col = true <-> In (row, col) l).
Proof.
  intros Hreach.
  destruct (reachable_invariant s Hreach) as (_ & _ & Hwin).
  destruct Hwin as [[Hnone Hnil]|(_ & p' & start & d & Hw & Hd & Heq & Hocc)].
  - split; [|congruence]. intros _ row col.
    unfold isWinningCell. by rewrite Hnil.
  - split; [congruence|]. intros p Hp. assert (p' = p) as -> by congruence.
    exists (line4 start d). split; [reflexivity|].
    split; [by apply line4_NoDup|]. split; [done|].
    intros row col. by rewrite isWinningCell_spec, Heq.
Qed.

Lemma isWinningCell_marks_winning_line_witness :
  (winner crossFinal = None ->
   forall row col, isWinningCell crossFinal row col = false) /\
  (forall p, winner crossFinal = Some p ->
     exists l,
       length l = 4%nat /\ List.NoDup l /\
       Forall (occupied_by (board crossFinal) p) l /\
       forall row col,
         isWinningCell crossFinal row col = true <-> In (row, col) l).
Proof.
  apply (isWinningCell_marks_winning_line crossFinal).
  apply (play_reachable initialState crossGame).
  - apply reach_init.
  - vm_compute. reflexivity.
Defined.

Lemma winner_is_mover s p :
  reachable s -> winner s = Some p -> currentPlayer s = p.
Proof.
  intros Hreach. induction Hreach using reachable_landed_ind; [done|].
  unfold landed. cbn [winner currentPlayer].
  destruct (0 <? Z.of_nat (length _)); [|done]. cbn. congruence.
Qed.

(** X11.  In every state of the game the status line is right: it announces a
    winner only if that player has four pieces in a line and made the last
    move, a draw only on a board without an empty cell on which nobody has
    four in a line, and a turn only while the board has an empty cell and
    nobody has four in a line. *)
Theorem statusBanner_sound s :
  reachable s ->
  match statusBanner s with
  | Wins p =>
      gameOver s = true /\ four_in_line (board s) p /\ currentPlayer s = p
  | Draw =>
      ~ has_empty_cell (board s) /\ forall p, ~ four_in_line (board s) p
  | Turn p =>
      p = currentPlayer s /\ has_empty_cell (board s) /\
      forall q, ~ four_in_line (board s) q
  end.
Proof.
  intros Hreach. unfold statusBanner.
  pose proof (gameOver_spec s Hreach) as Hover.
  destruct (winner s) as [p|] eqn:Hw.
  - split; [apply Hover; by left|].
    split; [|by apply winner_is_mover].
    destruct (reachable_invariant s Hreach) as (_ & _ & Hwin).
    destruct Hwin as [[? _]|(_ & p' & start & d & Hw' & Hd & _ & Hocc)];
      [congruence|].
    assert (p' = p) as -> by congruence. by exists start, d.
  - assert (forall q, ~ four_in_line (board s) q) as Hnone.
    { intros q Hq. apply (lines_have_winner s Hreach) in Hq. congruence. }
    destruct (gameOver s) eqn:Hgo.
    + split; [|done]. apply board_full_spec.
      destruct (proj1 Hover eq_refl) as [?|?]; done.
    + split; [done|]. split; [|done]. apply board_not_full.
      destruct (board_full (board s)) eqn:E; [|done].
      assert (false = true) as Habs; [|done]. apply Hover. by right.
Qed.

Lemma statusBanner_sound_witness :
  match statusBanner crossFinal with
  | Wins p =>
      gameOver crossFinal = true /\ four_in_line (board crossFinal) p /\
      currentPlayer crossFinal = p
  | Draw =>
      ~ has_empty_cell (board crossFinal) /\
      forall p, ~ four_in_line (board crossFinal) p
  | Turn p =>
      p = currentPlayer crossFinal /\ has_empty_cell (board crossFinal) /\
      forall q, ~ four_in_line (board crossFinal) q
  end.
Proof.
  apply (statusBanner_sound crossFinal).
  apply (play_reachable initialState crossGame).
  - apply reach_init.
  - vm_compute. reflexivity.
Defined.

(** ** Games as lists of moves *)

Lemma play_app s cols1 cols2 :
  play s (cols1 ++ cols2) = let* s1 := play s cols1 in play s1 cols2.
Proof.
  revert s. induction cols1 as [|c cols1 IH]; intros s; simpl; [done|].
  destruct (dropPiece s c) as [s1|]; simpl; [apply IH|done].
Qed.

(** X12.  The states of the game are the results of playing a list of in-range
    columns from the initial state: calls that change nothing and resets
    add no state. *)
Theorem reachable_iff_played s :
  reachable s <->
  exists cols,
    Forall (fun c => 0 <= c < COLS) cols /\ play initialState cols = Ok s.
Proof.
  split.
  - induction 1 as [|s col s' Hreach IH Hdrop|s Hreach IH].
    + by exists [].
    + destruct IH as (cols & Hcols & Hplay).
      destruct (reachable_invariant s Hreach) as (Hwf & _ & _).
      destruct (dropPiece_cases s col s' Hwf Hdrop)
        as [->|(_ & row & Hlow & _)]; [by exists cols|].
      pose proof (lowest_empty_in_bounds _ _ _ Hwf Hlow) as [_ Hcol].
      exists (cols ++ [col]). split.
      * apply Forall_app. split; [done|]. by apply Forall_singleton.
      * rewrite play_app, Hplay. simpl. by rewrite Hdrop.
    + by exists [].
  - intros (cols & _ & Hplay).
    apply (play_reachable initialState cols); [apply reach_init|done].
Qed.

(** ** The board only grows *)

(** X13.  In every state of the game the board has [ROWS] rows of [COLS] cells
    and every column is a stack: below a piece there are only pieces. *)
Theorem reachable_board_is_stacked s :
  reachable s -> board_wf (board s) /\ no_floating (board s).
Proof.
  intros Hreach. by destruct (reachable_invariant s Hreach) as (? & ? & _).
Qed.

Lemma reachable_board_is_stacked_witness :
  board_wf (board almostDraw) /\ no_floating (board almostDraw).
Proof.
  apply (reachable_board_is_stacked almostDraw).
  apply (play_reachable initialState drawGame).
  - apply reach_init.
  - vm_compute. reflexivity.
Defined.

(** X14.  On a board of the right shape [dropPiece] never removes or replaces a
    piece: what a cell holds before the call it holds after it. *)
Theorem dropPiece_never_overwrites s col s' row c p :
  board_wf (board s) ->
  dropPiece s col = Ok s' ->
  cell_at (board s) row c = Some (Some p) ->
  cell_at (board s') row c = Some (Some p).
Proof.
  intros Hwf Hdrop Hcell.
  destruct (dropPiece_cases s col s' Hwf Hdrop)
    as [->|(_ & row' & Hlow & Hset)]; [done|].
  rewrite settle_landed in Hset by done. injection Hset as <-.
  unfold landed. cbn [board].
  pose proof (lowest_empty_in_bounds _ _ _ Hwf Hlow) as [Hrow Hcol].
  rewrite cell_at_place_ne; [done|lia|lia|].
  intros [= -> ->]. destruct Hlow as [He _]. congruence.
Qed.

Lemma dropPiece_never_overwrites_witness :
  cell_at (board fullColumnState) 5 0 = Some (Some P1) /\
  exists s',
    dropPiece fullColumnState 1 = Ok s' /\
    cell_at (board s') 5 0 = Some (Some P1).
Proof.
  split; [reflexivity|]. eexists. split; [vm_compute; reflexivity|].
  apply (dropPiece_never_overwrites fullColumnState 1 _ 5 0 P1).
  - split; [reflexivity|]. repeat constructor.
  - vm_compute. reflexivity.
  - reflexivity.
Defined.

(** X15.  On a board of the right shape, when the drop of a piece ends the game
    with a winner, the winner is the player who dropped it and the cell it
    landed in is one of the four winning cells. *)
Theorem winning_drop_includes_piece s col row s' :
  board_wf (board s) ->
  gameOver s = false ->
  lowest_empty (board s) col row ->
  dropPiece s col = Ok s' ->
  winner s' <> None ->
  winner s' = Some (currentPlayer s) /\ In (row, col) (winningCells s').
Proof.
  intros Hwf Hgo Hlow Hdrop Hw.
  rewrite (drop_lands_settle s col row Hwf Hgo Hlow), settle_landed in Hdrop
    by done.
  injection Hdrop as <-. unfold landed in *. cbn [winner winningCells] in *.
  destruct (0 <? Z.of_nat (length _)) eqn:Hcells; [|done].
  split; [done|]. apply has_cells_spec in Hcells.
  pose proof (landed_played s col row Hwf Hlow) as Hplayed.
  apply holds_spec in Hplayed.
  destruct (winning_cells_sound directions _ row col _ Hplayed Hcells)
    as (start & d & _ & -> & Hin & _).
  done.
Qed.

Lemma winning_drop_includes_piece_witness :
  play initialState (take 20 crossGame) = Ok crossBefore /\
  winner crossFinal = Some (currentPlayer crossBefore) /\
  In (5, 3) (winningCells crossFinal).
Proof.
  split; [vm_compute; reflexivity|].
  apply (winning_drop_includes_piece crossBefore 3 5 crossFinal).
  - split; [reflexivity|]. repeat constructor.
  - reflexivity.
  - apply lowest_emptyb_sound; [split; [reflexivity|]; repeat constructor|].
    vm_compute. reflexivity.
  - vm_compute. reflexivity.
  - simpl. intros H. discriminate H.
Defined.
